(** * Sliding-window telemetry aggregation and actuator control

    A shallow embedding of the sample store of [app/mqtt_simple.py] and of
    the auto-control page [pages/04_usb_control.py], with the properties of
    the bounded history, the time window, the weighted blend and the
    threshold decision.

    Conventions of the embedding:
    - Python floats (humidity, temperature, weights, thresholds, epoch
      seconds) are rationals [Q]; comparisons are the exact order on [Q],
      and NaN is outside the model. [mean] and [combine] read the
      arithmetic as exact; the definitions named [_float] leave the
      rounded operations open, as Section variables.
    - [datetime] values are integers [Z], microseconds since the epoch;
      [timedelta(seconds=n)] is [n * 1000000]. [get_avg] subtracts on all
      of [Z]; [get_avg_call] adds the ranges of [timedelta] and
      [datetime], outside which line 174 raises.
    - a [deque] is a [list] with its left end first; the module-level
      [_store] is a [gmap string (list sample)].
    - library calls whose text is not part of the repository
      ([json.loads], the regular expressions of [_parse_payload], the HTTP
      request to the Pi) are Section variables. *)

From Stdlib Require Import QArith ZArith List Ascii String Sorting.Sorted Sorting.Permutation.
From stdpp Require Import gmap strings list fin_maps sorting.


(** ** Float comparisons *)

Definition Qgtb (x y : Q) : bool := negb (Qle_bool x y).
Definition Qltb (x y : Q) : bool := negb (Qle_bool y x).

(** [sum(xs)], left to right from 0. *)
Definition Qsum (xs : list Q) : Q := fold_left Qplus xs 0%Q.

(** [sum(xs)/len(xs) if xs else None], which is also what
    [statistics.mean(xs) if xs else None] computes on rationals. *)
Definition mean (xs : list Q) : option Q :=
  match xs with
  | [] => None
  | _ :: _ => Some (Qsum xs / inject_Z (Z.of_nat (length xs)))%Q
  end.

(** Two elements in the order of an integer measure, such as a
    timestamp. *)
Definition le_on {A} (f : A -> Z) (a b : A) : Prop := (f a <= f b)%Z.

(** ** Python strings

    The few [str] methods the code calls, on ASCII text. *)

Module PyStr.

(** The ASCII characters [str.strip()] removes: tab to carriage return,
    the four separators 0x1c-0x1f and the space. *)
Definition is_space (c : ascii) : bool :=
  let n := nat_of_ascii c in
  ((9 <=? n) && (n <=? 13)) || ((28 <=? n) && (n <=? 32)).

Fixpoint lstrip (s : string) : string :=
  match s with
  | EmptyString => EmptyString
  | String c r => if is_space c then lstrip r else s
  end.

Fixpoint rstrip (s : string) : string :=
  match s with
  | EmptyString => EmptyString
  | String c r =>
      match rstrip r with
      | EmptyString => if is_space c then EmptyString else String c EmptyString
      | r' => String c r'
      end
  end.

Definition strip (s : string) : string := rstrip (lstrip s).

(** ["/" in s] *)
Fixpoint has_slash (s : string) : bool :=
  match s with
  | EmptyString => false
  | String c r => Ascii.eqb c "/" || has_slash r
  end.

(** [s.split("/")[-1]]: what follows the last ["/"], all of [s] when it has
    none. *)
Fixpoint last_segment (s : string) : string :=
  match s with
  | EmptyString => EmptyString
  | String c r =>
      if has_slash r then last_segment r
      else if Ascii.eqb c "/" then r
      else s
  end.

(** [c.lower()] on an ASCII character. *)
Definition lower_char (c : ascii) : ascii :=
  let n := nat_of_ascii c in
  if ((65 <=? n) && (n <=? 90))%nat then ascii_of_nat (n + 32) else c.

(** [s.lower()] *)
Fixpoint lower (s : string) : string :=
  match s with
  | EmptyString => EmptyString
  | String c r => String (lower_char c) (lower r)
  end.

(** [needle in hay] *)
Fixpoint contains (needle hay : string) : bool :=
  String.prefix needle hay ||
  match hay with
  | EmptyString => false
  | String _ r => contains needle r
  end.

(** Every character of a text passes a test. *)
Fixpoint all_chars (p : ascii -> bool) (s : string) : bool :=
  match s with
  | EmptyString => true
  | String c r => p c && all_chars p r
  end.

End PyStr.

(** ** The sample store: [app/mqtt_simple.py] *)

Module MqttSimple.

Definition DEFAULT_MAX_SAMPLES : nat := 1000.

(** The tuple [(timestamp, temp, hum, payload_text, topic)] of line 132. *)
Record sample := {
  s_ts : Z;
  s_temp : option Q;
  s_hum : option Q;
  s_payload : string;
  s_topic : string
}.

(** [deque(maxlen=n).append(x)]: the element goes to the right end and,
    when the deque has grown past [maxlen], the left end is dropped. *)
Definition deque_append {A} (maxlen : nat) (dq : list A) (x : A) : list A :=
  let dq' := dq ++ [x] in
  if (maxlen <? length dq')%nat then drop 1 dq' else dq'.

(** [_store[device_id].append(x)] on the [defaultdict]: a missing key starts
    from an empty deque. *)
Definition store_append (device_id : string) (x : sample)
    (store : gmap string (list sample)) : gmap string (list sample) :=
  <[device_id := deque_append DEFAULT_MAX_SAMPLES (default [] (store !! device_id)) x]> store.

(** What [json.loads] returns; the members of an object are in the order
    of the text. *)
#[local] Unset Elimination Schemes.
Inductive json :=
| JNull
| JBool (b : bool)
| JNumber (x : Q)
| JString (s : string)
| JArray (items : list json)
| JObject (members : list (string * json)).
#[local] Set Elimination Schemes.

(** [d[k]] / [k in d] on a parsed object: of a repeated name the last
    member is the one the dict keeps. *)
Fixpoint dict_get (k : string) (members : list (string * json)) : option json :=
  match members with
  | [] => None
  | (k', v) :: rest =>
      match dict_get k rest with
      | Some v' => Some v'
      | None => if String.eqb k k' then Some v else None
      end
  end.

Definition DEVICE_ID_KEYS : list string :=
  ["device_id"; "device"; "id"; "dev"; "name"]%string.

(** The loop of lines 96-98: the first key, in this order, that is present
    with a [str] value. *)
Fixpoint first_str_field (keys : list string) (members : list (string * json))
    : option string :=
  match keys with
  | [] => None
  | k :: keys' =>
      match dict_get k members with
      | Some (JString s) => Some s
      | _ => first_str_field keys' members
      end
  end.

(** Lines 95-98: the identifier the payload names, when [parsed] is a
    dict; [parsed] is [None] when [json.loads] raised. *)
Definition explicit_device_id (parsed : option json) : option string :=
  match parsed with
  | Some (JObject members) => first_str_field DEVICE_ID_KEYS members
  | _ => None
  end.

(** [_infer_device_id(parsed, topic)] *)
Definition _infer_device_id (parsed : option json) (topic : string) : string :=
  match explicit_device_id parsed with
  | Some id => id
  | None =>
      if PyStr.has_slash topic then PyStr.last_segment (PyStr.strip topic)
      else match topic with
           | EmptyString => "unknown"%string
           | _ => topic
           end
  end.

(** One delivery of the transport: the clock read on entry, the routing
    key and the decoded payload. *)
Record message := {
  m_now : Z;
  m_topic : string;
  m_payload_text : string
}.

Section Ingestion.

(** [json.loads], [None] when it raises. *)
Variable json_loads : string -> option json.

(** [_parse_payload(payload_text)], the pair [(temp, hum)]. *)
Variable _parse_payload : string -> option Q * option Q.

Definition device_of (msg : message) : string :=
  _infer_device_id (json_loads (m_payload_text msg)) (m_topic msg).

Definition sample_of (msg : message) : sample :=
  let '(temp, hum) := _parse_payload (m_payload_text msg) in
  {| s_ts := m_now msg; s_temp := temp; s_hum := hum;
     s_payload := m_payload_text msg; s_topic := m_topic msg |}.

(** [_on_message(client, userdata, msg)] *)
Definition _on_message (msg : message) (store : gmap string (list sample))
    : gmap string (list sample) :=
  let payload_text := m_payload_text msg in
  let parsed := json_loads payload_text in
  let device_id := _infer_device_id parsed (m_topic msg) in
  let '(temp, hum) := _parse_payload payload_text in
  store_append device_id
    {| s_ts := m_now msg; s_temp := temp; s_hum := hum;
       s_payload := payload_text; s_topic := m_topic msg |}
    store.

(** The callback run on a stream of deliveries, oldest first. *)
Definition ingest (msgs : list message) (store : gmap string (list sample))
    : gmap string (list sample) :=
  fold_left (fun st msg => _on_message msg st) msgs store.

(** The samples of the deliveries attributed to [device_id], in arrival
    order. *)
Definition arrivals (device_id : string) (msgs : list message) : list sample :=
  sample_of <$> filter (fun msg => device_of msg = device_id) msgs.

End Ingestion.

(** The three accumulators of [get_avg]. *)
Record scan_state := {
  temps : list Q;
  hums : list Q;
  last_ts : option Z
}.

Definition scan_init : scan_state :=
  {| temps := []; hums := []; last_ts := None |}.

(** The body of the loop of lines 186-190. *)
Definition visit (a : scan_state) (s : sample) : scan_state :=
  {| temps := match s_temp s with Some t => temps a ++ [t] | None => temps a end;
     hums := match s_hum s with Some h => hums a ++ [h] | None => hums a end;
     last_ts := Some match last_ts a with
                     | None => s_ts s
                     | Some l => if (l <? s_ts s)%Z then s_ts s else l
                     end |}.

(** The loop of lines 183-190 over [reversed(dq)], with its [break]. *)
Fixpoint scan (cutoff : Z) (newest_first : list sample) (a : scan_state) : scan_state :=
  match newest_first with
  | [] => a
  | s :: older =>
      if (s_ts s <? cutoff)%Z then a
      else scan cutoff older (visit a s)
  end.

(** The dict [get_avg] returns. *)
Record averages := {
  temperature_c : option Q;
  humidity_pct : option Q;
  avg_last_ts : Z
}.

Definition cutoff_of (now window_seconds : Z) : Z :=
  (now - window_seconds * 1000000)%Z.

(** [MQTTSimple.get_avg(device_id, window_seconds)], with the clock it
    reads as [now]. *)
Definition get_avg (now : Z) (store : gmap string (list sample))
    (device_id : string) (window_seconds : Z) : option averages :=
  let cutoff := cutoff_of now window_seconds in
  match store !! device_id with
  | None | Some [] => None
  | Some dq =>
      let a := scan cutoff (rev dq) scan_init in
      match last_ts a with
      | None => None
      | Some l =>
          Some {| temperature_c := mean (temps a);
                  humidity_pct := mean (hums a);
                  avg_last_ts := l |}
      end
  end.


(** *** The cutoff on Python's [datetime] (line 174)

    [cutoff_of] subtracts on all of [Z]. Python's
    [timedelta(seconds=n)] raises [OverflowError] when the days of the
    difference, [n // 86400], leave [-999999999, 999999999], and
    [now - timedelta(...)] raises it when the result leaves
    [datetime.min, datetime.max]. Line 174 stands before the store lookup
    and outside any [try], so the exception leaves [get_avg]. *)






Inductive exception :=
| OverflowError.

(** What a call does: it returns a value or an exception leaves it. *)
Inductive outcome (A : Type) :=
| Returned (a : A)
| Raised (e : exception).

Arguments Returned {A} a.
Arguments Raised {A} e.


(** *** The history and the window in the words of the specification *)

(** The [n] most recent elements of a list in arrival order. *)
Definition lastn {A} (n : nat) (l : list A) : list A := drop (length l - n) l.

Definition in_window (cutoff : Z) (s : sample) : bool := (cutoff <=? s_ts s)%Z.

(** The longest run of in-window samples at the head of a list. *)
Fixpoint take_while {A} (p : A -> bool) (l : list A) : list A :=
  match l with
  | [] => []
  | x :: l' => if p x then x :: take_while p l' else []
  end.

(** The samples a TIME window selects: scanned from the most recent
    backward, up to the first sample older than the cutoff. *)
Definition window_samples (cutoff : Z) (dq : list sample) : list sample :=
  take_while (in_window cutoff) (rev dq).

(** The latest timestamp of a list of samples. *)
Definition later (acc : option Z) (s : sample) : option Z :=
  Some match acc with
       | None => s_ts s
       | Some m => Z.max m (s_ts s)
       end.

Definition latest_ts (l : list sample) : option Z := fold_left later l None.

(** The aggregate of a set of selected samples: per field, the mean over
    the samples that carry the field, absent when none does; the whole
    aggregate absent when nothing is selected. *)
Definition aggregate_of (selected : list sample) : option averages :=
  match latest_ts selected with
  | None => None
  | Some l =>
      Some {| temperature_c := mean (omap s_temp selected);
              humidity_pct := mean (omap s_hum selected);
              avg_last_ts := l |}
  end.

(** *** Reading the newest sample *)

(** The dict [get_latest] returns. *)
Record latest := {
  l_payload : string;
  l_ts : Z;
  l_temperature_c : option Q;
  l_humidity_pct : option Q;
  l_topic : string
}.

Definition latest_of (s : sample) : latest :=
  {| l_payload := s_payload s; l_ts := s_ts s;
     l_temperature_c := s_temp s; l_humidity_pct := s_hum s;
     l_topic := s_topic s |}.

(** [MQTTSimple.get_latest(device_id)]: [dq[-1]] of a deque that is there
    and not empty. *)
Definition get_latest (store : gmap string (list sample)) (device_id : string)
    : option latest :=
  match store !! device_id with
  | None | Some [] => None
  | Some dq => latest_of <$> last dq
  end.

End MqttSimple.

(** ** The payload parser: [_parse_payload] of [app/mqtt_simple.py] *)

Module Payload.

Import MqttSimple.

Definition TEMP_KEYS : list string :=
  ["temperature_c"; "temperature"; "temp"; "t"]%string.

Definition HUM_KEYS : list string :=
  ["humidity_pct"; "humidity"; "hum"; "h"]%string.

(** *** The regular expressions of lines 79 and 86

    [L(?:M(?:T)?)?[:=]\s*([0-9]+(?:\.[0-9]+)?)] under [re.I], for the label
    t / emp / erature and the label h / um / idity. After the first letter
    the text goes on with a separator, or with M and a separator, or with
    M, T and a separator; the three cases exclude each other, so the order
    in which they are tried is that of the greedy engine and nothing
    else. *)

Definition is_digit (c : ascii) : bool :=
  let n := nat_of_ascii c in ((48 <=? n) && (n <=? 57))%nat.

(** [[:=]] *)
Definition is_sep (c : ascii) : bool := Ascii.eqb c ":" || Ascii.eqb c "=".

(** A literal matched without regard to case; the text left after it. *)
Fixpoint skip_literal (lit s : string) : option string :=
  match lit, s with
  | EmptyString, _ => Some s
  | String a lit', String c s' =>
      if Ascii.eqb (PyStr.lower_char c) a then skip_literal lit' s' else None
  | String _ _, EmptyString => None
  end.

(** [\s*] *)
Fixpoint skip_spaces (s : string) : string :=
  match s with
  | String c s' => if PyStr.is_space c then skip_spaces s' else s
  | EmptyString => EmptyString
  end.

(** [[0-9]*] at the head of a text: the digits and what follows them. *)
Fixpoint span_digits (s : string) : string * string :=
  match s with
  | String c s' =>
      if is_digit c then let '(ds, rest) := span_digits s' in (String c ds, rest)
      else (EmptyString, s)
  | EmptyString => (EmptyString, EmptyString)
  end.

(** The value of a run of digits read after [acc]. *)
Fixpoint digits_value (acc : N) (ds : string) : N :=
  match ds with
  | String c ds' => digits_value (acc * 10 + (N_of_ascii c - 48))%N ds'
  | EmptyString => acc
  end.

(** [float(m.group(1))] for a group made of the digits [int_part] and,
    after a dot, the digits [frac_part] (none when the group has no
    dot). *)
Definition decimal_value (int_part frac_part : string) : Q :=
  (inject_Z (Z.of_N (digits_value (digits_value 0 int_part) frac_part))
   / inject_Z (10 ^ Z.of_nat (String.length frac_part)))%Q.

(** [[:=]\s*([0-9]+(?:\.[0-9]+)?)] at the head of a text. *)
Definition match_value (s : string) : option Q :=
  match s with
  | String c s' =>
      if is_sep c then
        let '(int_part, rest) := span_digits (skip_spaces s') in
        match int_part with
        | EmptyString => None
        | String _ _ =>
            let frac_part :=
              match rest with
              | String d after_dot =>
                  if Ascii.eqb d "." then fst (span_digits after_dot)
                  else EmptyString
              | EmptyString => EmptyString
              end in
            Some (decimal_value int_part frac_part)
        end
      else None
  | EmptyString => None
  end.

(** The whole pattern at the head of a text. *)
Definition match_here (first : ascii) (middle tail : string) (s : string) : option Q :=
  match s with
  | String c s' =>
      if Ascii.eqb (PyStr.lower_char c) first then
        let long :=
          match skip_literal middle s' with
          | Some s1 =>
              match
                match skip_literal tail s1 with
                | Some s2 => match_value s2
                | None => None
                end
              with
              | Some v => Some v
              | None => match_value s1
              end
          | None => None
          end in
        match long with
        | Some v => Some v
        | None => match_value s'
        end
      else None
  | EmptyString => None
  end.

(** [re.search]: the match at the leftmost position that has one. *)
Fixpoint search (first : ascii) (middle tail : string) (s : string) : option Q :=
  match match_here first middle tail s with
  | Some v => Some v
  | None =>
      match s with
      | String _ s' => search first middle tail s'
      | EmptyString => None
      end
  end.

Definition search_temp : string -> option Q := search "t" "emp" "erature".
Definition search_hum : string -> option Q := search "h" "um" "idity".

(** The text of a decimal number: its integer digits and, when there are
    fraction digits, a dot and those. *)
Definition number_text (int_part frac_part : string) : string :=
  match frac_part with
  | EmptyString => int_part
  | _ => (int_part ++ String "." frac_part)%string
  end.

(** A character that is not a digit; a text that cannot continue a number:
    it is empty or starts with neither a digit nor a dot. *)
Definition not_digit (c : ascii) : bool := negb (is_digit c).

Definition ends_number (rest : string) : bool :=
  match rest with
  | EmptyString => true
  | String c _ => not_digit c && negb (Ascii.eqb c ".")
  end.

(** The digits of a number text: an integer part that is not empty, and
    digits only. *)
Definition is_number (int_part frac_part : string) : bool :=
  match int_part with
  | EmptyString => false
  | String _ _ => PyStr.all_chars is_digit int_part && PyStr.all_chars is_digit frac_part
  end.

Section Parse.

(** [json.loads], [None] when it raises. *)
Variable json_loads : string -> option json.

(** [float(s)] on a [str], [None] when it raises. *)
Variable float_of_str : string -> option Q.

(** [float(v)] on a parsed value: numbers and booleans convert, a string
    is parsed, [None], lists and dicts raise. *)
Definition float_of_json (v : json) : option Q :=
  match v with
  | JNumber x => Some x
  | JBool b => Some (if b then 1 else 0)%Q
  | JString s => float_of_str s
  | JNull | JArray _ | JObject _ => None
  end.

(** One of the four [for k in (...)] loops, started with the variable at
    [cur]: a key that is present and converts ends the loop; a key that is
    present and does not convert resets the variable to [None] and the loop
    goes on. *)
Fixpoint first_float (keys : list string) (obj : list (string * json))
    (cur : option Q) : option Q :=
  match keys with
  | [] => cur
  | k :: keys' =>
      match dict_get k obj with
      | Some v =>
          match float_of_json v with
          | Some x => Some x
          | None => first_float keys' obj None
          end
      | None => first_float keys' obj cur
      end
  end.

(** Lines 41-74: the JSON attempt. *)
Definition json_fields (parsed : option json) : option Q * option Q :=
  match parsed with
  | Some (JObject obj) =>
      let temp := first_float TEMP_KEYS obj None in
      let hum := first_float HUM_KEYS obj None in
      match temp, hum with
      | Some _, Some _ => (temp, hum)
      | _, _ =>
          match dict_get "payload" obj with
          | Some (JObject inner) =>
              (first_float TEMP_KEYS inner temp, first_float HUM_KEYS inner hum)
          | _ => (temp, hum)
          end
      end
  | _ => (None, None)
  end.

(** [_parse_payload(payload_text)] *)
Definition _parse_payload (payload_text : string) : option Q * option Q :=
  let '(temp, hum) := json_fields (json_loads payload_text) in
  (match temp with Some _ => temp | None => search_temp payload_text end,
   match hum with Some _ => hum | None => search_hum payload_text end).

End Parse.

End Payload.

(** ** The control page: [pages/04_usb_control.py] *)

Module Control.

(** The two endpoints of the Pi, [PI_URL/on] and [PI_URL/off]. *)
Inductive endpoint := EpOn | EpOff.

(** [requests.get(url, timeout=8)] either returns a response, whatever its
    status code, or raises. *)
Inductive http_result :=
| HttpResponse (status_code : Z)
| HttpRaised (ex : string).

(** [st.session_state["ws_manual_override"]] is [None] or a dict
    [{"state": "on"/"off", "ts": iso}]. *)
Inductive override_state := on | off.

Record override := { state : override_state; ts : string }.

Definition override_state_eqb (a b : override_state) : bool :=
  match a, b with
  | on, on | off, off => true
  | _, _ => false
  end.

(** The keys of [st.session_state] the page reads and writes. *)
Record session := {
  ws_manual_override : option override;
  ws_th_on : Q;
  ws_th_off : Q
}.

Definition set_override (mo : option override) (ss : session) : session :=
  {| ws_manual_override := mo; ws_th_on := ws_th_on ss; ws_th_off := ws_th_off ss |}.

(** [st.sidebar.number_input(label, min_value, max_value, value, step)] *)
Record number_input := {
  min_value : Q;
  max_value : Q;
  value : Q;
  step : Q
}.

Definition th_on_input : number_input :=
  {| min_value := 0; max_value := 100; value := 75; step := 0.5 |}.

Definition th_off_input : number_input :=
  {| min_value := 0; max_value := 100; value := 40; step := 0.5 |}.

(** A number input holds any value of its own range; nothing relates one
    widget to another. *)
Definition number_input_accepts (w : number_input) (x : Q) : bool :=
  Qle_bool (min_value w) x && Qle_bool x (max_value w).

(** The operator types [on_] into the Auto-ON widget and [off_] into the
    Auto-OFF widget (lines 37-38); the page has no other code on the way
    from the widgets to [st.session_state]. *)
Definition enter_thresholds (on_ off_ : Q) (ss : session) : option session :=
  if number_input_accepts th_on_input on_ && number_input_accepts th_off_input off_
  then Some {| ws_manual_override := ws_manual_override ss;
               ws_th_on := on_; ws_th_off := off_ |}
  else None.

(** The session of a fresh page: no override, the widgets at their
    default [value]. *)
Definition initial_session : session :=
  {| ws_manual_override := None;
     ws_th_on := value th_on_input;
     ws_th_off := value th_off_input |}.

Section Gateway.

(** The answer of the Pi to a request. *)
Variable requests_get : endpoint -> http_result.

(** The "Manual ON" button (lines 46-52): the request is sent; if it returns,
    the latch is written with state "on"; if it raises, the session is left
    as it was. The result is the endpoint requested and the new session. *)
Definition manual_on (now_iso : string) (ss : session) : endpoint * session :=
  (EpOn,
   match requests_get EpOn with
   | HttpResponse _ => set_override (Some {| state := on; ts := now_iso |}) ss
   | HttpRaised _ => ss
   end).

(** The "Manual OFF" button (lines 54-60). *)
Definition manual_off (now_iso : string) (ss : session) : endpoint * session :=
  (EpOff,
   match requests_get EpOff with
   | HttpResponse _ => set_override (Some {| state := off; ts := now_iso |}) ss
   | HttpRaised _ => ss
   end).

(** The "Clear manual override" button (lines 63-68) is drawn only while
    the latch is truthy; it pops the key. *)
Definition clear_manual_override (ss : session) : session :=
  match ws_manual_override ss with
  | Some _ => set_override None ss
  | None => ss
  end.

(** [action_taken] of one pass of the loop, one constructor per message:
    "AUTO-ON (HTTP ..)" and "AUTO-ON failed: .." carry the outcome of the
    request, "Auto-ON suppressed by manual OFF override", "AUTO-OFF .." ,
    "No action", and the early "No action (no humidity)". *)
Inductive action_taken :=
| AutoOn (r : http_result)
| AutoOnSuppressed
| AutoOff (r : http_result)
| NoAction
| NoActionNoHumidity.

(** [allow_auto_on = not (manual_override and manual_override.get("state") == "off")] *)
Definition allow_auto_on (manual_override : option override) : bool :=
  negb (match manual_override with
        | Some mo => override_state_eqb (state mo) off
        | None => false
        end).

(** Lines 249-270, for a blend that is present. *)
Definition threshold_decision (weighted_avg : Q) (ss : session) : action_taken :=
  let manual_override := ws_manual_override ss in
  if Qgtb weighted_avg (ws_th_on ss) then
    if allow_auto_on manual_override then AutoOn (requests_get EpOn)
    else AutoOnSuppressed
  else if Qltb weighted_avg (ws_th_off ss) then AutoOff (requests_get EpOff)
  else NoAction.

(** Lines 233-270: an absent blend ends the pass before the thresholds are
    read. *)
Definition decision_cycle (weighted_avg : option Q) (ss : session) : action_taken :=
  match weighted_avg with
  | None => NoActionNoHumidity
  | Some b => threshold_decision b ss
  end.

End Gateway.

(** The command a pass sends to the actuator. *)
Inductive action := TURN_ON | TURN_OFF | NO_ACTION.

Definition command (a : action_taken) : action :=
  match a with
  | AutoOn _ => TURN_ON
  | AutoOff _ => TURN_OFF
  | AutoOnSuppressed | NoAction | NoActionNoHumidity => NO_ACTION
  end.

Definition command_of_endpoint (e : endpoint) : action :=
  match e with
  | EpOn => TURN_ON
  | EpOff => TURN_OFF
  end.

(** *** The blend (lines 213-230) *)

(** [per_device[dev]] holds the lists ["hums"] and ["temps"]. *)
Record device_lists := {
  dl_hums : list Q;
  dl_temps : list Q
}.

(** Lines 216-219: [sensor_id and sensor_id in per_device and
    per_device[sensor_id]["hums"]] guards [statistics.mean]; an id that is
    [None] or empty, a device without an entry and an empty list all leave
    the average [None]. *)
Definition sensor_avg (per_device : gmap string device_lists)
    (sensor_id : option string) : option Q :=
  match sensor_id with
  | None | Some EmptyString => None
  | Some id =>
      match per_device !! id with
      | Some lists => mean (dl_hums lists)
      | None => None
      end
  end.

(** Lines 221-230. *)
Definition combine (w1 w2 : Q) (avg_s1 avg_s2 : option Q) : option Q :=
  match avg_s1, avg_s2 with
  | Some a1, Some a2 => Some (w1 * a1 + w2 * a2)%Q
  | _, Some a2 => Some a2
  | Some a1, None => Some a1
  | None, None => None
  end.

(** The sidebar gives [w2]; line 34 sets [w1 = 1.0 - float(w2)]. *)
Definition weight_sensor1 (w2 : Q) : Q := (1 - w2)%Q.

Definition weighted_avg (w2 : Q) (per_device : gmap string device_lists)
    (sensor1_id sensor2_id : option string) : option Q :=
  combine (weight_sensor1 w2) w2
    (sensor_avg per_device sensor1_id) (sensor_avg per_device sensor2_id).

(** *** The window of the last records (lines 76-98 and 132-160) *)

Definition WINDOW_RECORDS : nat := 60.

(** A [datetime]: its calendar fields read as UTC, in microseconds since
    the epoch, and its [utcoffset()] when it has a [tzinfo]. *)
Record datetime := {
  dt_fields_us : Z;
  dt_utcoffset_us : option Z
}.

(** The values [_to_epoch] tells apart. *)
Inductive py_value :=
| PyNone
| PyNumber (x : Q)
| PyStr (s : string)
| PyDatetime (d : datetime)
| PyOther.

(** [dt.replace(tzinfo=utc).timestamp()] for a naive [dt],
    [dt.astimezone(utc).timestamp()] for an aware one. *)
Definition datetime_epoch (d : datetime) : Q :=
  match dt_utcoffset_us d with
  | None => inject_Z (dt_fields_us d) / 1000000
  | Some off_us => inject_Z (dt_fields_us d - off_us) / 1000000
  end%Q.

Section ToEpoch.

(** [datetime.fromisoformat], [None] when it raises. *)
Variable fromisoformat : string -> option datetime.

(** [float(s)] on a string, [None] when it raises. *)
Variable float_of_str : string -> option Q.

(** [_to_epoch(ts)]: a string that is not ISO text reaches the handler,
    which tries [float(ts)]; a value of no listed kind falls off the end. *)
Definition _to_epoch (ts : py_value) : option Q :=
  match ts with
  | PyNone => None
  | PyNumber x => Some x
  | PyStr s =>
      match fromisoformat s with
      | Some d => Some (datetime_epoch d)
      | None => float_of_str s
      end
  | PyDatetime d => Some (datetime_epoch d)
  | PyOther => None
  end.

End ToEpoch.

(** One dict of [all_entries]. *)
Record entry := {
  e_device : string;
  e_ts_epoch : option Q;
  e_temp : option Q;
  e_hum : option Q;
  e_raw : string;
  e_topic : string
}.

(** Lines 138-140: the entry built from one tuple of a deque. *)
Definition entry_of (fromisoformat : string -> option datetime)
    (float_of_str : string -> option Q)
    (dev : string) (ts : py_value) (t h : option Q) (raw topic : string) : entry :=
  {| e_device := dev;
     e_ts_epoch := _to_epoch fromisoformat float_of_str ts;
     e_temp := t; e_hum := h; e_raw := raw; e_topic := topic |}.

(** [list.sort(key=...)]: a stable sort that compares keys with [<] only.
    [insert_by] puts [x], which stood before all of [l], in front of the
    first element whose key is not below its own. *)
Section Sort.

Context {A K : Type}.
Variable lt : K -> K -> bool.
Variable key : A -> K.

Fixpoint insert_by (x : A) (l : list A) : list A :=
  match l with
  | [] => [x]
  | y :: l' => if lt (key y) (key x) then y :: insert_by x l' else x :: y :: l'
  end.

Definition list_sort (l : list A) : list A := foldr insert_by [] l.

End Sort.

(** Two elements in the order of their keys. *)
Definition key_le {A K} (le : K -> K -> Prop) (key : A -> K) (x y : A) : Prop :=
  le (key x) (key y).

(** The key of line 155, [(e["ts_epoch"] is None, e["ts_epoch"])], and the
    order of such tuples. *)
Definition none_last_key (e : entry) : bool * option Q :=
  (match e_ts_epoch e with None => true | Some _ => false end, e_ts_epoch e).

Definition none_last_lt (k1 k2 : bool * option Q) : bool :=
  match k1, k2 with
  | (false, _), (true, _) => true
  | (true, _), (false, _) => false
  | (_, Some x), (_, Some y) => Qltb x y
  | (_, _), (_, _) => false
  end.

(** Lines 157-158. *)
Definition _sort_key (e : entry) : Q :=
  match e_ts_epoch e with
  | Some epoch => epoch
  | None => (-1)%Q
  end.

(** Lines 155 and 159: the two sorts, one after the other. *)
Definition sort_entries (all_entries : list entry) : list entry :=
  list_sort Qltb _sort_key (list_sort none_last_lt none_last_key all_entries).

(** [l[-n:]] for [n >= 0]: the last [n] elements, and all of [l] for n = 0. *)
Definition slice_last {A} (n : nat) (l : list A) : list A :=
  match n with
  | O => l
  | S _ => drop (length l - n) l
  end.

(** Line 160, on the sorted list. *)
Definition recent (window_records : nat) (all_entries : list entry) : list entry :=
  match sort_entries all_entries with
  | [] => []
  | sorted => slice_last window_records sorted
  end.

(** The entries the slice leaves out. *)
Definition excluded (window_records : nat) (all_entries : list entry) : list entry :=
  let sorted := sort_entries all_entries in
  take (length sorted - length (recent window_records all_entries)) sorted.

(** *** One pass of the loop, from the copied store to the decision
    (lines 132-270) *)

(** The timestamps of the store come from [datetime.now(timezone.utc)]:
    aware, at offset zero. *)
Definition stored_ts (s : MqttSimple.sample) : py_value :=
  PyDatetime {| dt_fields_us := MqttSimple.s_ts s; dt_utcoffset_us := Some 0%Z |}.

Section CopyStore.

Variable fromisoformat : string -> option datetime.
Variable float_of_str : string -> option Q.

Definition entry_of_sample (dev : string) (s : MqttSimple.sample) : entry :=
  entry_of fromisoformat float_of_str dev (stored_ts s)
    (MqttSimple.s_temp s) (MqttSimple.s_hum s)
    (MqttSimple.s_payload s) (MqttSimple.s_topic s).

(** Lines 136-140 over [_store.items()], the devices in the order the
    dict yields them. *)
Definition copy_store (items : list (string * list MqttSimple.sample)) : list entry :=
  flat_map (fun '(dev, dq) => map (entry_of_sample dev) dq) items.

End CopyStore.

(** [per_device] is a dict whose key order is read by the selection of
    the sensors: here the list of its items, a key where it was first
    inserted. *)
Definition empty_lists : device_lists := {| dl_hums := []; dl_temps := [] |}.

(** Lines 171-179 on the lists of one device. *)
Definition add_reading (ent : entry) (lists : device_lists) : device_lists :=
  {| dl_hums := match e_hum ent with
                | Some hum => dl_hums lists ++ [hum]
                | None => dl_hums lists
                end;
     dl_temps := match e_temp ent with
                 | Some temp => dl_temps lists ++ [temp]
                 | None => dl_temps lists
                 end |}.

(** Lines 168-179: the device gets its pair of empty lists when it is not
    a key yet, then the reading is appended. *)
Fixpoint record_entry (ent : entry) (per_device : list (string * device_lists))
    : list (string * device_lists) :=
  match per_device with
  | [] => [(e_device ent, add_reading ent empty_lists)]
  | (dev, lists) :: rest =>
      if String.eqb dev (e_device ent) then (dev, add_reading ent lists) :: rest
      else (dev, lists) :: record_entry ent rest
  end.

(** Lines 163-179. *)
Definition build_per_device (recent_entries : list entry) : list (string * device_lists) :=
  fold_left (fun per_device ent => record_entry ent per_device) recent_entries [].

(** [not x] is false for a string that is there and not empty. *)
Definition truthy (id : option string) : bool :=
  match id with
  | None | Some EmptyString => false
  | Some _ => true
  end.

(** Lines 190 and 192. *)
Definition names_sensor2 (d : string) : bool :=
  let dl := PyStr.lower d in
  PyStr.contains "sense" dl || PyStr.contains "hat" dl.

Definition names_sensor1 (d : string) : bool :=
  let dl := PyStr.lower d in
  PyStr.contains "easy" dl || PyStr.contains "easylog" dl || PyStr.contains "easy-log" dl.

(** Lines 188-193: the pair [(sensor1_id, sensor2_id)] after the loop. *)
Definition scan_names (dev_keys : list string) : option string * option string :=
  fold_left
    (fun '(sensor1_id, sensor2_id) d =>
       (if names_sensor1 d then Some d else sensor1_id,
        if names_sensor2 d then Some d else sensor2_id))
    dev_keys (None, None).

(** Lines 185-198. *)
Definition select_sensors (dev_keys : list string) : option string * option string :=
  let '(named1, named2) := scan_names dev_keys in
  let sensor1_id :=
    if truthy named1 then named1
    else match dev_keys with
         | k0 :: _ => Some k0
         | [] => named1
         end in
  let sensor2_id :=
    if truthy named2 then named2
    else match dev_keys with
         | k0 :: k1 :: _ =>
             if match sensor1_id with
                | Some s1 => String.eqb k1 s1
                | None => false
                end
             then Some k0 else Some k1
         | _ => named2
         end in
  (sensor1_id, sensor2_id).

(** Lines 160-230: the blend of a pass. *)
Definition blend (w2 : Q) (window_records : nat) (all_entries : list entry) : option Q :=
  let per_device := build_per_device (recent window_records all_entries) in
  let '(sensor1_id, sensor2_id) := select_sensors (map fst per_device) in
  weighted_avg w2 (list_to_map per_device) sensor1_id sensor2_id.

(** *** The blend on floats

    [mean] and [combine] read the arithmetic of lines 34, 217, 219 and 224
    as exact. A float is a rational, but [1.0 - w2], the two products,
    their sum and [statistics.mean] return a rounded result. The
    definitions of this section keep the values in [Q] and leave the four
    operations open: what is proved of them holds whatever the rounding
    is. *)

Section FloatBlend.

Variables float_sub float_mul float_add : Q -> Q -> Q.
Variable statistics_mean : list Q -> Q.

(** [statistics.mean(xs) if xs else None] *)
Definition mean_float (xs : list Q) : option Q :=
  match xs with
  | [] => None
  | _ :: _ => Some (statistics_mean xs)
  end.

(** Lines 216-219. *)
Definition sensor_avg_float (per_device : gmap string device_lists)
    (sensor_id : option string) : option Q :=
  match sensor_id with
  | None | Some EmptyString => None
  | Some id =>
      match per_device !! id with
      | Some lists => mean_float (dl_hums lists)
      | None => None
      end
  end.

(** Lines 221-230. *)
Definition combine_float (w1 w2 : Q) (avg_s1 avg_s2 : option Q) : option Q :=
  match avg_s1, avg_s2 with
  | Some a1, Some a2 => Some (float_add (float_mul w1 a1) (float_mul w2 a2))
  | _, Some a2 => Some a2
  | Some a1, None => Some a1
  | None, None => None
  end.

(** Line 34: [w1 = 1.0 - float(w2)]. *)
Definition weight_sensor1_float (w2 : Q) : Q := float_sub 1 w2.

Definition weighted_avg_float (w2 : Q) (per_device : gmap string device_lists)
    (sensor1_id sensor2_id : option string) : option Q :=
  combine_float (weight_sensor1_float w2) w2
    (sensor_avg_float per_device sensor1_id) (sensor_avg_float per_device sensor2_id).

(** Lines 160-230. *)
Definition blend_float (w2 : Q) (window_records : nat) (all_entries : list entry) : option Q :=
  let per_device := build_per_device (recent window_records all_entries) in
  let '(sensor1_id, sensor2_id) := select_sensors (map fst per_device) in
  weighted_avg_float w2 (list_to_map per_device) sensor1_id sensor2_id.

End FloatBlend.

(** What a pass reports: "No action (no samples)" when nothing was copied,
    else the outcome of the decision. *)
Inductive pass_result :=
| NoSamples
| Decided (a : action_taken).

Definition usb_pass (requests_get : endpoint -> http_result) (w2 : Q)
    (window_records : nat) (all_entries : list entry) (ss : session) : pass_result :=
  match all_entries with
  | [] => NoSamples
  | _ :: _ =>
      Decided (decision_cycle requests_get (blend w2 window_records all_entries) ss)
  end.

(** *** The grouping and the roles in the words of a reader *)

(** The readings of one device among a list of entries: nothing when the
    device has no entry, else its humidity and temperature values in the
    order of the entries. *)
Definition readings_of (dev : string) (entries : list entry) : option device_lists :=
  match filter (fun e => e_device e = dev) entries with
  | [] => None
  | own => Some {| dl_hums := omap e_hum own; dl_temps := omap e_temp own |}
  end.

(** The humidity readings a role brings to the blend: those of the
    entries of its device, none for a role that is [None] or the empty
    id. *)
Definition role_hums (sensor_id : option string) (entries : list entry) : list Q :=
  match sensor_id with
  | None | Some EmptyString => []
  | Some id => omap e_hum (filter (fun e => e_device e = id) entries)
  end.

(** The device a name points at, the last one in key order. *)
Definition last_named (names : string -> bool) (dev_keys : list string) : option string :=
  last (filter (fun d => names d = true) dev_keys).

(** Two entries tie in both sorts when neither has an epoch, or when both
    have one and the two are equal: the entries of the class of [t]. *)
Definition same_epoch (t : option Q) (e : entry) : bool :=
  match t, e_ts_epoch e with
  | None, None => true
  | Some x, Some y => Qeq_bool x y
  | _, _ => false
  end.

End Control.

(** * Properties *)

Import MqttSimple Control.

(** ** Float comparisons *)

Lemma Qgtb_true (x y : Q) : Qgtb x y = true <-> (y < x)%Q.
Proof.
  unfold Qgtb. rewrite negb_true_iff. split.
  - intros H. apply Qnot_le_lt. intros Hle.
    apply Qle_bool_iff in Hle. congruence.
  - intros H. destruct (Qle_bool x y) eqn:E; [|reflexivity].
    apply Qle_bool_iff in E. exfalso. exact (Qlt_not_le _ _ H E).
Qed.

Lemma Qgtb_false (x y : Q) : Qgtb x y = false <-> (x <= y)%Q.
Proof. unfold Qgtb. rewrite negb_false_iff. apply Qle_bool_iff. Qed.

Lemma Qltb_true (x y : Q) : Qltb x y = true <-> (x < y)%Q.
Proof. apply Qgtb_true. Qed.

Lemma Qltb_false (x y : Q) : Qltb x y = false <-> (y <= x)%Q.
Proof. apply Qgtb_false. Qed.

(** ** The decision engine *)

Section DecisionFacts.

Variable requests_get : endpoint -> http_result.

Lemma decide_above (b : Q) (ss : session) :
  (ws_th_on ss < b)%Q ->
  threshold_decision requests_get b ss =
    if allow_auto_on (ws_manual_override ss) then AutoOn (requests_get EpOn)
    else AutoOnSuppressed.
Proof.
  intros H. unfold threshold_decision. apply Qgtb_true in H. now rewrite H.
Qed.

Lemma decide_below (b : Q) (ss : session) :
  (b <= ws_th_on ss)%Q -> (b < ws_th_off ss)%Q ->
  threshold_decision requests_get b ss = AutoOff (requests_get EpOff).
Proof.
  intros Hon Hoff. unfold threshold_decision.
  apply Qgtb_false in Hon. apply Qltb_true in Hoff. now rewrite Hon, Hoff.
Qed.

Lemma decide_band (b : Q) (ss : session) :
  (ws_th_off ss <= b)%Q -> (b <= ws_th_on ss)%Q ->
  threshold_decision requests_get b ss = NoAction.
Proof.
  intros Hoff Hon. unfold threshold_decision.
  apply Qgtb_false in Hon. apply Qltb_false in Hoff. now rewrite Hon, Hoff.
Qed.

End DecisionFacts.

(** C1. With [threshold_on = 75], [threshold_off = 40] and no override
    latched, a pass sends TURN_ON when the blend is above 75, TURN_OFF when
    it is below 40 and nothing in between; the blends 50, 80, 60, 35, 60
    give NO_ACTION, TURN_ON, NO_ACTION, TURN_OFF, NO_ACTION. *)
Theorem C1_hysteresis_thresholds (requests_get : endpoint -> http_result) (blend : Q) :
  let ss := {| ws_manual_override := None; ws_th_on := 75; ws_th_off := 40 |} in
  let act := fun b => command (decision_cycle requests_get (Some b) ss) in
  ((75 < blend)%Q -> act blend = TURN_ON) /\
  ((blend < 40)%Q -> act blend = TURN_OFF) /\
  ((40 <= blend)%Q -> (blend <= 75)%Q -> act blend = NO_ACTION) /\
  map act [50; 80; 60; 35; 60]%Q =
    [NO_ACTION; TURN_ON; NO_ACTION; TURN_OFF; NO_ACTION].
Proof.
  intros ss act. unfold act. cbn [decision_cycle].
  split; [|split; [|split]].
  - intros H. now rewrite decide_above.
  - intros H. rewrite decide_below; [reflexivity | | exact H].
    cbn. apply Qlt_le_weak. eapply Qlt_trans; [exact H | reflexivity].
  - intros Hlo Hhi. now rewrite decide_band.
  - reflexivity.
Qed.

Lemma C1_hysteresis_thresholds_witness :
  command (decision_cycle (fun _ => HttpResponse 200) (Some 80%Q)
             {| ws_manual_override := None; ws_th_on := 75; ws_th_off := 40 |})
    = TURN_ON
  /\ command (decision_cycle (fun _ => HttpResponse 200) (Some 35%Q)
             {| ws_manual_override := None; ws_th_on := 75; ws_th_off := 40 |})
    = TURN_OFF
  /\ command (decision_cycle (fun _ => HttpResponse 200) (Some 60%Q)
             {| ws_manual_override := None; ws_th_on := 75; ws_th_off := 40 |})
    = NO_ACTION.
Proof.
  split; [|split].
  - apply (C1_hysteresis_thresholds (fun _ => HttpResponse 200) 80). reflexivity.
  - apply (C1_hysteresis_thresholds (fun _ => HttpResponse 200) 35). reflexivity.
  - apply (C1_hysteresis_thresholds (fun _ => HttpResponse 200) 60);
      unfold Qle; simpl; lia.
Defined.

(** C2. While the latch is OFF and [threshold_off < threshold_on]: a blend
    above [threshold_on] sends nothing (auto-ON suppressed, reported as
    such), a blend below [threshold_off] still sends TURN_OFF, and once the
    override is cleared the same blend above [threshold_on] sends
    TURN_ON. *)
Theorem C2_override_off_precedence (requests_get : endpoint -> http_result)
    (blend th_on th_off : Q) (set_at : string) :
  (th_off < th_on)%Q ->
  let latched := {| ws_manual_override := Some {| state := off; ts := set_at |};
                    ws_th_on := th_on; ws_th_off := th_off |} in
  ((th_on < blend)%Q ->
     decision_cycle requests_get (Some blend) latched = AutoOnSuppressed /\
     command (decision_cycle requests_get (Some blend) latched) = NO_ACTION) /\
  ((blend < th_off)%Q ->
     command (decision_cycle requests_get (Some blend) latched) = TURN_OFF) /\
  ((th_on < blend)%Q ->
     command (decision_cycle requests_get (Some blend) (clear_manual_override latched))
       = TURN_ON).
Proof.
  intros Hband latched. cbn [decision_cycle].
  split; [|split].
  - intros H. now rewrite decide_above.
  - intros H. rewrite decide_below; [reflexivity | | exact H].
    cbn. apply Qlt_le_weak. eapply Qlt_trans; [exact H | exact Hband].
  - intros H. now rewrite decide_above.
Qed.

Lemma C2_override_off_precedence_witness :
  (40 < 75)%Q /\
  command (decision_cycle (fun _ => HttpResponse 200) (Some 90%Q)
             {| ws_manual_override := Some {| state := off; ts := "2024-05-01T10:00:00+00:00" |};
                ws_th_on := 75; ws_th_off := 40 |}) = NO_ACTION /\
  command (decision_cycle (fun _ => HttpResponse 200) (Some 90%Q)
             (clear_manual_override
                {| ws_manual_override := Some {| state := off; ts := "2024-05-01T10:00:00+00:00" |};
                   ws_th_on := 75; ws_th_off := 40 |})) = TURN_ON.
Proof.
  assert (Hband : (40 < 75)%Q) by reflexivity.
  pose proof (C2_override_off_precedence (fun _ => HttpResponse 200) 90 75 40
                "2024-05-01T10:00:00+00:00" Hband) as (Hsup & _ & Hclr).
  split; [exact Hband|]. split.
  - apply Hsup. reflexivity.
  - apply Hclr. reflexivity.
Defined.

(** ** The manual commands *)

(** C7, as the claim words it, fails: after a manual ON that the Pi
    answers, the latch is not absent, it holds the state "on". *)
Lemma C7_manual_on_leaves_latch_set :
  ws_manual_override
    (snd (manual_on (fun _ => HttpResponse 200) "2024-05-01T10:00:00+00:00"
            {| ws_manual_override := Some {| state := off; ts := "2024-05-01T09:00:00+00:00" |};
               ws_th_on := 75; ws_th_off := 40 |}))
  = Some {| state := on; ts := "2024-05-01T10:00:00+00:00" |}
  /\ ws_manual_override
       (snd (manual_on (fun _ => HttpResponse 200) "2024-05-01T10:00:00+00:00"
               {| ws_manual_override := Some {| state := off; ts := "2024-05-01T09:00:00+00:00" |};
                  ws_th_on := 75; ws_th_off := 40 |}))
     <> None.
Proof. split; [reflexivity | discriminate]. Qed.

(** C7, amended. A manual ON requests TURN_ON directly and a manual OFF
    requests TURN_OFF, whatever the latch. When the request returns, the
    manual ON writes the latch with state ON, which takes the place of any
    OFF latch and lets auto-ON through again, and the manual OFF writes the
    latch with state OFF; when the request raises, the latch stays as it
    was. *)
Theorem C7_manual_commands_set_latch (requests_get : endpoint -> http_result)
    (now_iso : string) (ss : session) :
  command_of_endpoint (fst (manual_on requests_get now_iso ss)) = TURN_ON /\
  command_of_endpoint (fst (manual_off requests_get now_iso ss)) = TURN_OFF /\
  (forall code, requests_get EpOn = HttpResponse code ->
     ws_manual_override (snd (manual_on requests_get now_iso ss))
       = Some {| state := on; ts := now_iso |} /\
     allow_auto_on (ws_manual_override (snd (manual_on requests_get now_iso ss))) = true) /\
  (forall code, requests_get EpOff = HttpResponse code ->
     ws_manual_override (snd (manual_off requests_get now_iso ss))
       = Some {| state := off; ts := now_iso |} /\
     allow_auto_on (ws_manual_override (snd (manual_off requests_get now_iso ss))) = false) /\
  (forall ex, requests_get EpOn = HttpRaised ex ->
     snd (manual_on requests_get now_iso ss) = ss) /\
  (forall ex, requests_get EpOff = HttpRaised ex ->
     snd (manual_off requests_get now_iso ss) = ss).
Proof.
  unfold manual_on, manual_off. cbn [fst snd command_of_endpoint].
  split; [reflexivity|]. split; [reflexivity|].
  split; [|split; [|split]].
  - intros code ->. split; reflexivity.
  - intros code ->. split; reflexivity.
  - now intros ex ->.
  - now intros ex ->.
Qed.

Lemma C7_manual_commands_set_latch_witness :
  ws_manual_override
    (snd (manual_off (fun _ => HttpResponse 200) "2024-05-01T10:00:00+00:00" initial_session))
  = Some {| state := off; ts := "2024-05-01T10:00:00+00:00" |}
  /\ snd (manual_on (fun _ => HttpRaised "timed out") "2024-05-01T10:00:00+00:00" initial_session)
     = initial_session.
Proof.
  split.
  - apply (C7_manual_commands_set_latch (fun _ => HttpResponse 200)
             "2024-05-01T10:00:00+00:00" initial_session) with (code := 200%Z).
    reflexivity.
  - apply (C7_manual_commands_set_latch (fun _ => HttpRaised "timed out")
             "2024-05-01T10:00:00+00:00" initial_session) with (ex := "timed out"%string).
    reflexivity.
Defined.

(** ** The thresholds *)

(** C8, as the claim words it, fails: the inverted pair on = 40, off = 75
    is taken as it is. *)
Lemma C8_inverted_thresholds_accepted :
  (40 <= 75)%Q /\
  enter_thresholds 40 75 initial_session
  = Some {| ws_manual_override := None; ws_th_on := 40; ws_th_off := 75 |}.
Proof. split; [discriminate | reflexivity]. Qed.

(** C8, amended. Each threshold is held to the range 0..100 of its own
    input and to nothing else: every pair within range is accepted and
    stored unchanged, whether [threshold_off] is below [threshold_on] or
    not. *)
Theorem C8_thresholds_range_only (on_ off_ : Q) (ss : session) :
  (0 <= on_)%Q -> (on_ <= 100)%Q -> (0 <= off_)%Q -> (off_ <= 100)%Q ->
  enter_thresholds on_ off_ ss
  = Some {| ws_manual_override := ws_manual_override ss;
            ws_th_on := on_; ws_th_off := off_ |}.
Proof.
  intros H1 H2 H3 H4. unfold enter_thresholds, number_input_accepts.
  cbn [min_value max_value th_on_input th_off_input].
  apply Qle_bool_iff in H1, H2, H3, H4.
  now rewrite H1, H2, H3, H4.
Qed.

Lemma C8_thresholds_range_only_witness :
  enter_thresholds 50 80 initial_session
  = Some {| ws_manual_override := None; ws_th_on := 50; ws_th_off := 80 |}.
Proof.
  apply (C8_thresholds_range_only 50 80 initial_session); discriminate.
Defined.

(** ** The bounded history *)

Section Deque.

Context {A : Type}.
Implicit Types (dq xs : list A) (x : A).

Lemma deque_append_length maxlen dq x :
  length dq <= maxlen -> length (deque_append maxlen dq x) <= maxlen.
Proof.
  intros Hlen. unfold deque_append.
  destruct (Nat.ltb_spec maxlen (length (dq ++ [x]))) as [Hgt | Hle].
  - rewrite length_drop, length_app. simpl. lia.
  - exact Hle.
Qed.

Lemma deque_append_full maxlen dq x :
  0 < maxlen -> length dq = maxlen -> deque_append maxlen dq x = drop 1 dq ++ [x].
Proof.
  intros Hpos Hlen. unfold deque_append.
  destruct (Nat.ltb_spec maxlen (length (dq ++ [x]))) as [Hgt | Hle].
  - destruct dq as [|y dq]; [|reflexivity].
    simpl in Hlen. lia.
  - rewrite length_app in Hle. simpl in Hle. lia.
Qed.

Lemma deque_append_room maxlen dq x :
  length dq < maxlen -> deque_append maxlen dq x = dq ++ [x].
Proof.
  intros Hlen. unfold deque_append.
  destruct (Nat.ltb_spec maxlen (length (dq ++ [x]))) as [Hgt | Hle];
    [|reflexivity].
  rewrite length_app in Hgt. simpl in Hgt. lia.
Qed.

Lemma lastn_length n xs : length (lastn n xs) = Nat.min n (length xs).
Proof. unfold lastn. rewrite length_drop. lia. Qed.

(** Appending to the last [maxlen] arrivals gives the last [maxlen]
    arrivals of the longer stream. *)
Lemma deque_append_lastn maxlen xs x :
  deque_append maxlen (lastn maxlen xs) x = lastn maxlen (xs ++ [x]).
Proof.
  unfold deque_append, lastn.
  rewrite !length_app, length_drop. cbn [length].
  destruct (Nat.ltb_spec maxlen (length xs - (length xs - maxlen) + 1)) as [Hgt | Hle].
  - rewrite <- (drop_app_le xs [x]) by lia.
    rewrite drop_drop. f_equal. lia.
  - replace (length xs - maxlen) with 0 by lia.
    replace (length xs + 1 - maxlen) with 0 by lia.
    reflexivity.
Qed.

End Deque.

Section IngestionFacts.

Variable json_loads : string -> option json.
Variable _parse_payload : string -> option Q * option Q.

Abbreviation on_message := (_on_message json_loads _parse_payload).
Abbreviation ingest_all := (ingest json_loads _parse_payload).
Abbreviation arrived := (arrivals json_loads _parse_payload).
Abbreviation dev := (device_of json_loads).
Abbreviation smp := (sample_of _parse_payload).

Lemma on_message_store_append msg (store : gmap string (list sample)) :
  on_message msg store = store_append (dev msg) (smp msg) store.
Proof.
  unfold _on_message, device_of, sample_of.
  now destruct (_parse_payload (m_payload_text msg)).
Qed.

Lemma on_message_lookup_same msg (store : gmap string (list sample)) :
  on_message msg store !! dev msg
  = Some (deque_append DEFAULT_MAX_SAMPLES (default [] (store !! dev msg)) (smp msg)).
Proof.
  rewrite on_message_store_append. unfold store_append.
  apply lookup_insert_eq.
Qed.

Lemma on_message_lookup_other msg (store : gmap string (list sample)) d :
  dev msg <> d -> on_message msg store !! d = store !! d.
Proof.
  intros Hne. rewrite on_message_store_append. unfold store_append.
  now apply lookup_insert_ne.
Qed.

Lemma ingest_snoc msgs msg (store : gmap string (list sample)) :
  ingest_all (msgs ++ [msg]) store = on_message msg (ingest_all msgs store).
Proof. unfold ingest. now rewrite fold_left_app. Qed.

Lemma arrivals_snoc d msgs msg :
  arrived d (msgs ++ [msg])
  = arrived d msgs ++ (if decide (dev msg = d) then [smp msg] else []).
Proof.
  unfold arrivals. rewrite filter_app, fmap_app. f_equal.
  rewrite filter_cons, filter_nil. now destruct (decide (dev msg = d)).
Qed.

(** The history of a device is, at every moment, the last
    [DEFAULT_MAX_SAMPLES] samples that arrived for it. *)
Lemma ingest_history msgs d :
  default [] (ingest_all msgs ∅ !! d) = lastn DEFAULT_MAX_SAMPLES (arrived d msgs).
Proof.
  induction msgs as [|msg msgs IH] using rev_ind.
  - reflexivity.
  - rewrite ingest_snoc, arrivals_snoc.
    destruct (decide (dev msg = d)) as [<- | Hne].
    + rewrite on_message_lookup_same. cbn [default].
      rewrite IH. apply deque_append_lastn.
    + rewrite on_message_lookup_other by exact Hne.
      now rewrite app_nil_r.
Qed.

End IngestionFacts.

(** C3. Whatever the stream of deliveries, the history of every source
    holds at most 1000 samples: it is the last 1000 samples that arrived
    for the source, in arrival order; and an append to a history of 1000
    samples drops the oldest one and keeps the rest, the new sample
    last. *)
Theorem C3_history_bounded (json_loads : string -> option json)
    (_parse_payload : string -> option Q * option Q)
    (msgs : list message) (device_id : string) :
  let history := default [] (ingest json_loads _parse_payload msgs ∅ !! device_id) in
  DEFAULT_MAX_SAMPLES = 1000 /\
  length history <= 1000 /\
  history = lastn 1000 (arrivals json_loads _parse_payload device_id msgs) /\
  (forall (store : gmap string (list sample)) dq (x : sample),
     store !! device_id = Some dq -> length dq = 1000 ->
     store_append device_id x store !! device_id = Some (drop 1 dq ++ [x])).
Proof.
  intros history. unfold history. split; [reflexivity|].
  rewrite ingest_history. fold DEFAULT_MAX_SAMPLES.
  split; [|split].
  - rewrite lastn_length. lia.
  - reflexivity.
  - intros store dq x Hdq Hlen. unfold store_append.
    rewrite lookup_insert_eq, Hdq. cbn [default].
    rewrite deque_append_full; [reflexivity | unfold DEFAULT_MAX_SAMPLES; lia | exact Hlen].
Qed.

(** ** The time window *)

Section TakeWhile.

Context {A : Type}.
Variable p : A -> bool.

Lemma take_while_all (l : list A) :
  Forall (fun x => p x = true) l -> take_while p l = l.
Proof.
  induction 1 as [|x l Hx _ IH]; [reflexivity|].
  cbn. now rewrite Hx, IH.
Qed.

Lemma take_while_snoc_false (l : list A) (x : A) :
  p x = false -> take_while p (l ++ [x]) = take_while p l.
Proof.
  intros Hx. induction l as [|y l IH]; cbn.
  - now rewrite Hx.
  - destruct (p y); [now rewrite IH | reflexivity].
Qed.

Lemma take_while_Forall (l : list A) :
  Forall (fun x => p x = true) (take_while p l).
Proof.
  induction l as [|x l IH]; cbn; [constructor|].
  destruct (p x) eqn:Hx; constructor; assumption.
Qed.

(** The scan stops at the end of the list or in front of the first
    element that fails the test. *)
Lemma take_while_split (l : list A) :
  exists rest, l = take_while p l ++ rest /\
               match rest with [] => True | x :: _ => p x = false end.
Proof.
  induction l as [|x l (rest & Heq & Hrest)]; cbn.
  - now exists [].
  - destruct (p x) eqn:Hx.
    + exists rest. split; [cbn; now f_equal | exact Hrest].
    + now exists (x :: l).
Qed.

End TakeWhile.

Lemma in_window_true cutoff s : in_window cutoff s = true <-> (cutoff <= s_ts s)%Z.
Proof. unfold in_window. apply Z.leb_le. Qed.

Lemma in_window_false cutoff s : in_window cutoff s = false <-> (s_ts s < cutoff)%Z.
Proof. unfold in_window. apply Z.leb_gt. Qed.

(** The loop with its [break] visits the samples of [take_while]. *)
Lemma scan_take_while cutoff (l : list sample) (a : scan_state) :
  scan cutoff l a = fold_left visit (take_while (in_window cutoff) l) a.
Proof.
  revert a. induction l as [|s l IH]; intros a; cbn; [reflexivity|].
  unfold in_window at 1.
  destruct (Z.ltb_spec (s_ts s) cutoff) as [Hlt | Hge].
  - now rewrite (proj2 (Z.leb_gt _ _) Hlt).
  - rewrite (proj2 (Z.leb_le _ _) Hge). cbn. apply IH.
Qed.

Lemma visit_later (a : scan_state) (s : sample) :
  last_ts (visit a s) = later (last_ts a) s.
Proof.
  unfold visit, later. cbn. destruct (last_ts a) as [l|]; [|reflexivity].
  f_equal. destruct (Z.ltb_spec l (s_ts s)); lia.
Qed.

Lemma fold_visit (l : list sample) (a : scan_state) :
  temps (fold_left visit l a) = temps a ++ omap s_temp l /\
  hums (fold_left visit l a) = hums a ++ omap s_hum l /\
  last_ts (fold_left visit l a) = fold_left later l (last_ts a).
Proof.
  revert a. induction l as [|s l IH]; intros a; cbn [fold_left].
  - cbn. now rewrite !app_nil_r.
  - destruct (IH (visit a s)) as (Ht & Hh & Hl).
    rewrite Ht, Hh, Hl, visit_later. cbn [omap list_omap].
    split; [|split; [|reflexivity]].
    + unfold visit; cbn. destruct (s_temp s); [now rewrite <- app_assoc | reflexivity].
    + unfold visit; cbn. destruct (s_hum s); [now rewrite <- app_assoc | reflexivity].
Qed.



(** [get_avg] on a known source is the aggregate of the scanned window. *)
Lemma get_avg_aggregate now (store : gmap string (list sample)) d w dq :
  store !! d = Some dq ->
  get_avg now store d w = aggregate_of (window_samples (cutoff_of now w) dq).
Proof.
  intros Hd. unfold get_avg. rewrite Hd.
  destruct dq as [|s0 dq0]; [reflexivity|].
  set (dq := s0 :: dq0). unfold window_samples, aggregate_of.
  rewrite scan_take_while.
  destruct (fold_visit (take_while (in_window (cutoff_of now w)) (rev dq)) scan_init)
    as (Ht & Hh & Hl).
  rewrite Ht, Hh, Hl. reflexivity.
Qed.

Lemma get_avg_unknown now (store : gmap string (list sample)) d w :
  store !! d = None -> get_avg now store d w = None.
Proof. intros Hd. unfold get_avg. now rewrite Hd. Qed.

Lemma filter_all {A} (P : A -> Prop) `{!forall x, Decision (P x)} (l : list A) :
  Forall P l -> filter P l = l.
Proof.
  induction 1 as [|x l Hx _ IH]; [reflexivity|].
  rewrite filter_cons_True by exact Hx. now rewrite IH.
Qed.

(** On a history in timestamp order the scan finds every in-window
    sample. *)
Lemma window_samples_sorted cutoff (dq : list sample) :
  StronglySorted Z.le (s_ts <$> dq) ->
  window_samples cutoff dq = rev (filter (fun s => (cutoff <= s_ts s)%Z) dq).
Proof.
  unfold window_samples. induction dq as [|s dq IH]; intros Hs; [reflexivity|].
  rewrite fmap_cons in Hs. apply StronglySorted_inv in Hs as [Hs Hall].
  cbn [rev]. destruct (decide (cutoff <= s_ts s)%Z) as [Hin | Hout].
  - assert (Hdq : Forall (fun x => (cutoff <= s_ts x)%Z) (s :: dq)).
    { constructor; [exact Hin|]. rewrite Forall_fmap in Hall.
      eapply Forall_impl; [exact Hall|]. cbn. intros x Hx. lia. }
    rewrite (filter_all _ (s :: dq) Hdq). cbn [rev].
    apply take_while_all. rewrite <- (rev_involutive (s :: dq)) in Hdq.
    apply Forall_rev in Hdq. cbn [rev] in Hdq. rewrite rev_involutive in Hdq.
    eapply Forall_impl; [exact Hdq|]. intros x Hx. now apply in_window_true.
  - rewrite filter_cons_False by exact Hout.
    rewrite take_while_snoc_false by (apply in_window_false; lia).
    now apply IH.
Qed.

(** C4. For a source with a history, [get_avg] aggregates the samples the
    scan selects: going from the most recent sample backward, the samples
    up to, and without, the first one older than [now - s]. Every selected
    sample is in the window, and the scan ends at the oldest sample or in
    front of a sample older than the cutoff, so an in-window sample behind
    an older one is not reached. On a history stored in timestamp order the
    selected samples are exactly those with [timestamp >= now - s]. *)
Theorem C4_time_window (now : Z) (store : gmap string (list sample))
    (device_id : string) (window_seconds : Z) (dq : list sample) :
  store !! device_id = Some dq ->
  let cutoff := (now - window_seconds * 1000000)%Z in
  let selected := window_samples cutoff dq in
  get_avg now store device_id window_seconds = aggregate_of selected /\
  (exists older,
     rev dq = selected ++ older /\
     Forall (fun s => (cutoff <= s_ts s)%Z) selected /\
     match older with [] => True | s :: _ => (s_ts s < cutoff)%Z end) /\
  (StronglySorted Z.le (s_ts <$> dq) ->
     selected = rev (filter (fun s => (cutoff <= s_ts s)%Z) dq) /\
     forall s, s ∈ selected <-> s ∈ dq /\ (cutoff <= s_ts s)%Z).
Proof.
  intros Hd cutoff selected. split; [|split].
  - now apply get_avg_aggregate.
  - destruct (take_while_split (in_window cutoff) (rev dq)) as (older & Heq & Hold).
    exists older. split; [exact Heq|]. split.
    + eapply Forall_impl; [apply take_while_Forall|].
      intros s Hs. now apply in_window_true.
    + destruct older as [|s older]; [exact I|]. now apply in_window_false.
  - intros Hsorted.
    assert (Hsel : selected = rev (filter (fun s => (cutoff <= s_ts s)%Z) dq))
      by now apply window_samples_sorted.
    split; [exact Hsel|]. intros s. rewrite Hsel.
    rewrite list_elem_of_In, <- in_rev, <- list_elem_of_In.
    now rewrite list_elem_of_filter, (and_comm (cutoff <= s_ts s)%Z).
Qed.

Lemma C4_time_window_witness :
  let s1 := {| s_ts := 10000000; s_temp := Some 21%Q; s_hum := Some 40%Q;
               s_payload := "a"; s_topic := "MSN/group6/easy_log" |} in
  let s2 := {| s_ts := 80000000; s_temp := None; s_hum := Some 50%Q;
               s_payload := "b"; s_topic := "MSN/group6/easy_log" |} in
  let s3 := {| s_ts := 95000000; s_temp := Some 23%Q; s_hum := Some 60%Q;
               s_payload := "c"; s_topic := "MSN/group6/easy_log" |} in
  let store : gmap string (list sample) := {[ "easy_log"%string := [s1; s2; s3] ]} in
  get_avg 100000000 store "easy_log" 30
    = Some {| temperature_c := Some 23%Q; humidity_pct := Some (110 # 2)%Q;
              avg_last_ts := 95000000 |}
  /\ window_samples (100000000 - 30 * 1000000) [s1; s2; s3] = [s3; s2].
Proof.
  intros s1 s2 s3 store.
  destruct (C4_time_window 100000000 store "easy_log" 30 [s1; s2; s3] eq_refl)
    as (Havg & _ & Hsorted).
  split.
  - rewrite Havg. reflexivity.
  - destruct Hsorted as [Hsel _].
    + repeat constructor; cbn; lia.
    + refine (eq_trans Hsel _). reflexivity.
Defined.

(** A late sample stops the scan: the in-window sample that arrived before
    it is left out of the aggregate. *)
Example window_scan_stops_at_old_sample :
  let mk := fun t h => {| s_ts := t; s_temp := None; s_hum := Some h;
                          s_payload := ""; s_topic := "MSN/group6/easy_log" |} in
  let store : gmap string (list sample) :=
    {[ "easy_log"%string := [mk 95000000%Z 10%Q; mk 10000000%Z 20%Q; mk 90000000%Z 30%Q] ]} in
  get_avg 100000000 store "easy_log" 30
  = Some {| temperature_c := None; humidity_pct := Some 30%Q; avg_last_ts := 90000000 |}.
Proof. reflexivity. Qed.

(** ** Absent aggregates *)





(** *** The cutoff of line 174 *)






Lemma C3_history_bounded_witness :
  let x := {| s_ts := 5; s_temp := None; s_hum := Some 60%Q;
              s_payload := "h=60"; s_topic := "MSN/group6/sense_hat" |} in
  let old := {| s_ts := 1; s_temp := None; s_hum := None;
                s_payload := ""; s_topic := "MSN/group6/sense_hat" |} in
  let store : gmap string (list sample) := {[ "sense_hat"%string := replicate 1000 old ]} in
  store_append "sense_hat" x store !! "sense_hat"%string
  = Some (replicate 999 old ++ [x]).
Proof.
  intros x old store.
  destruct (C3_history_bounded (fun _ => None) (fun _ => (None, None)) [] "sense_hat")
    as (_ & _ & _ & Hfull).
  rewrite (Hfull store (replicate 1000 old) x); [reflexivity | reflexivity |].
  apply length_replicate.
Defined.

(** ** The source of a message *)

(** C9, as the claim words it, fails: a delivery with the routing key
    "sensor", which has no delimiter, and an empty payload, which is not
    JSON, is not dropped. *)
Lemma C9_undelimited_key_empty_payload_stored :
  ~ (forall (json_loads : string -> option json)
            (_parse_payload : string -> option Q * option Q),
       json_loads "" = None ->
       _on_message json_loads _parse_payload
         {| m_now := 0; m_topic := "sensor"; m_payload_text := "" |} ∅ = ∅).
Proof.
  intros Hdrop.
  specialize (Hdrop (fun _ => None) (fun _ => (None, None)) eq_refl).
  pose proof (on_message_lookup_same (fun _ => None) (fun _ => (None, None))
                {| m_now := 0; m_topic := "sensor"; m_payload_text := "" |} ∅) as Hstored.
  rewrite Hdrop, lookup_empty in Hstored. discriminate.
Qed.

(** C9, amended. The source of a message is the first of the payload
    fields device_id, device, id, dev, name that holds a string; without
    one, the trailing segment of the routing key when the key has a
    delimiter; without a delimiter, the routing key itself; and "unknown"
    for an empty key. A source is therefore always found, and every
    message appends its sample to the history of that source and leaves
    the other histories alone: no message is dropped. *)
Theorem C9_source_always_determined (json_loads : string -> option json)
    (_parse_payload : string -> option Q * option Q)
    (msg : message) (store : gmap string (list sample)) :
  let parsed := json_loads (m_payload_text msg) in
  let topic := m_topic msg in
  let device_id := _infer_device_id parsed topic in
  (forall id, explicit_device_id parsed = Some id -> device_id = id) /\
  (explicit_device_id parsed = None -> PyStr.has_slash topic = true ->
     device_id = PyStr.last_segment (PyStr.strip topic)) /\
  (explicit_device_id parsed = None -> PyStr.has_slash topic = false ->
     topic <> EmptyString -> device_id = topic) /\
  (explicit_device_id parsed = None -> topic = EmptyString ->
     device_id = "unknown"%string) /\
  _on_message json_loads _parse_payload msg store !! device_id
    = Some (deque_append DEFAULT_MAX_SAMPLES (default [] (store !! device_id))
              (sample_of _parse_payload msg)) /\
  (forall d, d <> device_id ->
     _on_message json_loads _parse_payload msg store !! d = store !! d).
Proof.
  intros parsed topic device_id. unfold device_id, _infer_device_id.
  split; [|split; [|split; [|split; [|split]]]].
  - now intros id ->.
  - now intros -> ->.
  - intros -> -> Hne. now destruct topic.
  - now intros -> ->.
  - apply on_message_lookup_same.
  - intros d Hne. apply on_message_lookup_other. intros Heq. apply Hne.
    rewrite <- Heq. reflexivity.
Qed.

Lemma C9_source_always_determined_witness :
  _infer_device_id None "MSN/group6/easy_log" = "easy_log"%string
  /\ _infer_device_id
       (Some (JObject [("id"%string, JNumber 7%Q); ("name"%string, JString "sense_hat")]))
       "MSN/group6/easy_log" = "sense_hat"%string
  /\ _infer_device_id None "sensor" = "sensor"%string.
Proof.
  split; [|split].
  - refine (eq_trans
      (proj1 (proj2 (C9_source_always_determined (fun _ => None) (fun _ => (None, None))
         {| m_now := 0; m_topic := "MSN/group6/easy_log"; m_payload_text := "" |} ∅))
         eq_refl eq_refl) _).
    reflexivity.
  - exact (proj1 (C9_source_always_determined
      (fun _ => Some (JObject [("id"%string, JNumber 7%Q); ("name"%string, JString "sense_hat")]))
      (fun _ => (None, None))
      {| m_now := 0; m_topic := "MSN/group6/easy_log"; m_payload_text := "{}" |} ∅)
      "sense_hat"%string eq_refl).
  - refine (proj1 (proj2 (proj2 (C9_source_always_determined (fun _ => None) (fun _ => (None, None))
         {| m_now := 0; m_topic := "sensor"; m_payload_text := "" |} ∅)))
         eq_refl eq_refl _).
    discriminate.
Defined.

(** ** The window of the last records *)

Section SortFacts.

Context {A K : Type}.
Variable lt : K -> K -> bool.
Variable le : K -> K -> Prop.
Variable key : A -> K.

Hypothesis lt_true_le : forall a b, lt a b = true -> le a b.
Hypothesis lt_false_le : forall a b, lt a b = false -> le b a.
Hypothesis le_trans : forall a b c, le a b -> le b c -> le a c.

Local Abbreviation key_le := (key_le le key).

Lemma insert_by_Permutation (x : A) (l : list A) :
  Permutation (insert_by lt key x l) (x :: l).
Proof.
  induction l as [|y l IH]; cbn; [reflexivity|].
  destruct (lt (key y) (key x)); [|reflexivity].
  rewrite IH. apply perm_swap.
Qed.

Lemma list_sort_Permutation (l : list A) :
  Permutation (list_sort lt key l) l.
Proof.
  induction l as [|x l IH]; cbn; [reflexivity|].
  rewrite insert_by_Permutation. now constructor.
Qed.

Lemma insert_by_sorted (x : A) (l : list A) :
  StronglySorted key_le l -> StronglySorted key_le (insert_by lt key x l).
Proof.
  induction 1 as [|y l Hl IH Hy]; cbn.
  - repeat constructor.
  - destruct (lt (key y) (key x)) eqn:Hlt.
    + constructor; [exact IH|].
      rewrite insert_by_Permutation. constructor; [|exact Hy].
      now apply lt_true_le.
    + assert (Hxy : key_le x y) by now apply lt_false_le.
      constructor; [now constructor|].
      constructor; [exact Hxy|].
      eapply Forall_impl; [exact Hy|]. intros z Hz.
      exact (le_trans _ _ _ Hxy Hz).
Qed.

Lemma list_sort_sorted (l : list A) :
  StronglySorted key_le (list_sort lt key l).
Proof.
  induction l as [|x l IH]; cbn; [constructor|].
  now apply insert_by_sorted.
Qed.

(** In a sorted list, positions follow keys. *)
Lemma sorted_lookup_le (l : list A) (i j : nat) (x y : A) :
  StronglySorted key_le l -> l !! i = Some x -> l !! j = Some y ->
  i < j -> key_le x y.
Proof.
  intros Hs. revert i j. induction Hs as [|z l Hl IH Hz]; intros i j Hi Hj Hij.
  - discriminate.
  - destruct j as [|j]; [lia|]. cbn in Hj. destruct i as [|i]; cbn in Hi.
    + injection Hi as <-. rewrite Forall_forall in Hz. apply Hz.
      apply list_elem_of_lookup. now exists j.
    + apply (IH i j); [assumption | assumption | lia].
Qed.

End SortFacts.

Lemma sort_entries_sorted (all_entries : list entry) :
  StronglySorted (key_le Qle _sort_key) (sort_entries all_entries).
Proof.
  unfold sort_entries. apply list_sort_sorted.
  - intros a b H. apply Qlt_le_weak. now apply Qltb_true.
  - intros a b H. now apply Qltb_false.
  - intros a b c. apply Qle_trans.
Qed.

Lemma sort_entries_Permutation (all_entries : list entry) :
  Permutation (sort_entries all_entries) all_entries.
Proof.
  unfold sort_entries. now rewrite !list_sort_Permutation.
Qed.

(** An entry without an epoch stands before every entry with an epoch that
    is not negative. *)
Lemma unparseable_before_parseable (all_entries : list entry)
    (i j : nat) (e1 e2 : entry) (epoch : Q) :
  sort_entries all_entries !! i = Some e1 ->
  sort_entries all_entries !! j = Some e2 ->
  e_ts_epoch e1 = None -> e_ts_epoch e2 = Some epoch -> (0 <= epoch)%Q ->
  i < j.
Proof.
  intros Hi Hj H1 H2 Hpos.
  destruct (Nat.lt_trichotomy i j) as [Hlt | [-> | Hgt]]; [exact Hlt | | ].
  - congruence.
  - exfalso.
    pose proof (sorted_lookup_le Qle _sort_key _ j i e2 e1
                  (sort_entries_sorted all_entries) Hj Hi Hgt) as Hle.
    unfold key_le, _sort_key in Hle. rewrite H1, H2 in Hle.
    assert (Hneg : (epoch < 0)%Q) by (eapply Qle_lt_trans; [exact Hle | reflexivity]).
    exact (Qlt_not_le _ _ Hneg Hpos).
Qed.

Lemma recent_excluded_split (window_records : nat) (all_entries : list entry) :
  let sorted := sort_entries all_entries in
  let k := length sorted - length (recent window_records all_entries) in
  excluded window_records all_entries = take k sorted /\
  recent window_records all_entries = drop k sorted.
Proof.
  intros sorted k. split; [reflexivity|].
  unfold k, recent. fold sorted.
  destruct sorted as [|e sorted'] eqn:Hs; [reflexivity|].
  rewrite <- Hs. unfold slice_last.
  destruct window_records as [|n].
  - now rewrite Nat.sub_diag.
  - rewrite length_drop. f_equal. lia.
Qed.

Lemma recent_length (window_records : nat) (all_entries : list entry) :
  0 < window_records ->
  length (recent window_records all_entries)
  = Nat.min window_records (length all_entries).
Proof.
  intros Hpos. rewrite <- (Permutation_length (sort_entries_Permutation all_entries)).
  unfold recent.
  destruct (sort_entries all_entries) as [|e sorted'] eqn:Hs; [cbn; lia|].
  rewrite <- Hs. unfold slice_last.
  destruct window_records as [|n]; [lia|].
  rewrite length_drop. lia.
Qed.

(** C10. An entry whose timestamp gave no epoch sorts under the key -1.0.
    In the sorted list it stands before every entry whose epoch is
    non-negative, and the window is the tail of that list, of 60 entries
    when there are more than 60: so no entry without an epoch is kept
    while an entry with a non-negative epoch is left out. *)
Theorem C10_unparseable_excluded_first (fromisoformat : string -> option datetime)
    (float_of_str : string -> option Q) (all_entries : list entry) :
  let sorted := sort_entries all_entries in
  let kept := recent WINDOW_RECORDS all_entries in
  let dropped := excluded WINDOW_RECORDS all_entries in
  WINDOW_RECORDS = 60 /\
  (forall dev ts t h raw topic,
     _to_epoch fromisoformat float_of_str ts = None ->
     _sort_key (entry_of fromisoformat float_of_str dev ts t h raw topic) = (-1)%Q) /\
  (forall e, e_ts_epoch e = None -> _sort_key e = (-1)%Q) /\
  Permutation sorted all_entries /\
  sorted = dropped ++ kept /\
  length kept = Nat.min 60 (length all_entries) /\
  (forall i j e1 e2 epoch,
     sorted !! i = Some e1 -> sorted !! j = Some e2 ->
     e_ts_epoch e1 = None -> e_ts_epoch e2 = Some epoch -> (0 <= epoch)%Q ->
     i < j) /\
  (forall e1 e2 epoch,
     e1 ∈ kept -> e_ts_epoch e1 = None ->
     e_ts_epoch e2 = Some epoch -> (0 <= epoch)%Q ->
     e2 ∉ dropped).
Proof.
  intros sorted kept dropped.
  destruct (recent_excluded_split WINDOW_RECORDS all_entries) as [Hdropped Hkept].
  fold sorted kept dropped in Hdropped, Hkept.
  set (k := length sorted - length kept) in *.
  assert (Hsplit : sorted = dropped ++ kept)
    by (rewrite Hdropped, Hkept; symmetry; apply take_drop).
  split; [reflexivity|].
  split; [intros dev ts t h raw topic He; unfold _sort_key, entry_of; cbn; now rewrite He|].
  split; [intros e He; unfold _sort_key; now rewrite He|].
  split; [apply sort_entries_Permutation|].
  split; [exact Hsplit|].
  split; [apply recent_length; unfold WINDOW_RECORDS; lia|].
  split; [intros i j e1 e2 epoch; apply unparseable_before_parseable|].
  intros e1 e2 epoch Hin1 Hnone Hsome Hpos Hin2.
  apply list_elem_of_lookup in Hin1 as [i Hi].
  apply list_elem_of_lookup in Hin2 as [j Hj].
  pose proof (lookup_lt_Some _ _ _ Hj) as Hjlt.
  assert (Hi' : sorted !! (length dropped + i) = Some e1).
  { rewrite Hsplit, lookup_app_r by lia.
    rewrite <- Hi. f_equal. lia. }
  assert (Hj' : sorted !! j = Some e2).
  { rewrite Hsplit, lookup_app_l by exact Hjlt. exact Hj. }
  pose proof (unparseable_before_parseable all_entries _ _ _ _ _ Hi' Hj' Hnone Hsome Hpos).
  lia.
Qed.

Lemma C10_unparseable_excluded_first_witness :
  let mk := fun d t => {| e_device := d; e_ts_epoch := t; e_temp := None;
                          e_hum := Some 50%Q; e_raw := ""; e_topic := "" |} in
  let all_entries := mk "sense_hat"%string (Some 5%Q)
                     :: replicate 61 (mk "easy_log"%string None) in
  length (excluded WINDOW_RECORDS all_entries) = 2 /\
  mk "sense_hat"%string (Some 5%Q) ∉ excluded WINDOW_RECORDS all_entries.
Proof.
  intros mk all_entries. split; [reflexivity|].
  destruct (C10_unparseable_excluded_first (fun _ => None) (fun _ => None) all_entries)
    as (_ & _ & _ & _ & _ & _ & _ & Hfirst).
  apply (Hfirst (mk "easy_log"%string None) (mk "sense_hat"%string (Some 5%Q)) 5%Q).
  - apply list_elem_of_lookup. exists 0. reflexivity.
  - reflexivity.
  - reflexivity.
  - discriminate.
Defined.

(** * Further properties of the store *)

(** ** The newest sample *)

Lemma deque_append_last {A} (maxlen : nat) (dq : list A) (x : A) :
  0 < maxlen -> last (deque_append maxlen dq x) = Some x.
Proof.
  intros Hpos. unfold deque_append.
  destruct (Nat.ltb_spec maxlen (length (dq ++ [x]))) as [Hgt | Hle].
  - destruct dq as [|y dq]; cbn [app drop].
    + cbn in Hgt. lia.
    + apply last_snoc.
  - apply last_snoc.
Qed.

Lemma get_latest_default (store : gmap string (list sample)) d :
  get_latest store d = latest_of <$> last (default [] (store !! d)).
Proof.
  unfold get_latest. destruct (store !! d) as [[|s dq]|]; reflexivity.
Qed.

Lemma lastn_last {A} (n : nat) (l : list A) :
  0 < n -> last (lastn n l) = last l.
Proof.
  intros Hpos. unfold lastn.
  destruct (decide (length l = 0)) as [Hz | Hnz].
  - destruct l; [reflexivity | discriminate].
  - rewrite !last_lookup, length_drop, lookup_drop. f_equal. lia.
Qed.

(** After a message is ingested, [get_latest] of its device is that
    message: its payload, receipt time, parsed fields and topic; the newest
    sample of every other device is the one it was. *)
Theorem get_latest_after_message (json_loads : string -> option json)
    (_parse_payload : string -> option Q * option Q)
    (msg : message) (store : gmap string (list sample)) :
  get_latest (_on_message json_loads _parse_payload msg store)
    (device_of json_loads msg)
  = Some {| l_payload := m_payload_text msg; l_ts := m_now msg;
            l_temperature_c := fst (_parse_payload (m_payload_text msg));
            l_humidity_pct := snd (_parse_payload (m_payload_text msg));
            l_topic := m_topic msg |}
  /\ forall d, d <> device_of json_loads msg ->
       get_latest (_on_message json_loads _parse_payload msg store) d
       = get_latest store d.
Proof.
  split.
  - rewrite get_latest_default, on_message_lookup_same. cbn [default from_option id].
    rewrite deque_append_last by (unfold DEFAULT_MAX_SAMPLES; lia).
    unfold sample_of, latest_of. cbn.
    now destruct (_parse_payload (m_payload_text msg)).
  - intros d Hne. rewrite !get_latest_default.
    now rewrite on_message_lookup_other by congruence.
Qed.

(** Over a whole stream, [get_latest] of a device is the last message that
    arrived for it, and nothing for a device no message named. *)
Theorem get_latest_of_stream (json_loads : string -> option json)
    (_parse_payload : string -> option Q * option Q)
    (msgs : list message) (device_id : string) :
  get_latest (ingest json_loads _parse_payload msgs ∅) device_id
  = latest_of <$> last (arrivals json_loads _parse_payload device_id msgs).
Proof.
  rewrite get_latest_default, ingest_history.
  now rewrite lastn_last by (unfold DEFAULT_MAX_SAMPLES; lia).
Qed.

(** ** The devices of [get_all_avgs] *)




(** ** The aggregate of a window *)

Lemma fold_later_max (l : list sample) (z : Z) :
  exists m, fold_left later l (Some z) = Some m /\
            (z <= m)%Z /\ Forall (fun s => (s_ts s <= m)%Z) l /\
            (m = z \/ exists s, s ∈ l /\ s_ts s = m).
Proof.
  revert z. induction l as [|s l IH]; intros z; cbn [fold_left].
  - exists z. repeat split; [lia | constructor | now left].
  - change (later (Some z) s) with (Some (Z.max z (s_ts s))).
    destruct (IH (Z.max z (s_ts s))) as (m & Hm & Hle & Hall & Hwit).
    exists m. split; [exact Hm|]. split; [lia|]. split.
    + constructor; [lia | exact Hall].
    + destruct Hwit as [-> | (s' & Hin & Hs')].
      * destruct (Z.max_spec z (s_ts s)) as [[_ ->] | [_ ->]].
        -- right. exists s. split; [left | reflexivity].
        -- now left.
      * right. exists s'. split; [now right | exact Hs'].
Qed.

Lemma latest_ts_max (l : list sample) (m : Z) :
  latest_ts l = Some m ->
  Forall (fun s => (s_ts s <= m)%Z) l /\ exists s, s ∈ l /\ s_ts s = m.
Proof.
  unfold latest_ts. destruct l as [|s l]; [discriminate|]. cbn [fold_left].
  change (later None s) with (Some (s_ts s)).
  destruct (fold_later_max l (s_ts s)) as (m' & Hm & Hle & Hall & Hwit).
  rewrite Hm. intros [= <-]. split.
  - constructor; [exact Hle | exact Hall].
  - destruct Hwit as [-> | (s' & Hin & Hs')].
    + exists s. split; [left | reflexivity].
    + exists s'. split; [now right | exact Hs'].
Qed.

(** The [last_ts] of an aggregate is the largest timestamp among the
    samples it was computed from: the timestamp of one of them, and no
    smaller than any; with timestamps out of order it need not be that of
    the newest arrival. *)
Theorem get_avg_last_ts_is_max (now : Z) (store : gmap string (list sample))
    (device_id : string) (window_seconds : Z) (dq : list sample) (a : averages) :
  store !! device_id = Some dq ->
  get_avg now store device_id window_seconds = Some a ->
  let selected := window_samples (now - window_seconds * 1000000) dq in
  (exists s, s ∈ selected /\ s_ts s = avg_last_ts a) /\
  Forall (fun s => (s_ts s <= avg_last_ts a)%Z) selected /\
  (now - window_seconds * 1000000 <= avg_last_ts a)%Z.
Proof.
  intros Hd Ha selected.
  rewrite (get_avg_aggregate now store device_id window_seconds dq Hd) in Ha.
  unfold cutoff_of in Ha. fold selected in Ha. unfold aggregate_of in Ha.
  destruct (latest_ts selected) as [m|] eqn:Hm; [|discriminate].
  injection Ha as <-. cbn [avg_last_ts].
  destruct (latest_ts_max selected m Hm) as (Hall & s & Hin & Hs).
  split; [now exists s|]. split; [exact Hall|].
  pose proof (take_while_Forall (in_window (now - window_seconds * 1000000)) (rev dq))
    as Hwin.
  rewrite Forall_forall in Hwin. specialize (Hwin s Hin).
  apply in_window_true in Hwin. lia.
Qed.

Lemma get_avg_last_ts_is_max_witness :
  let mk := fun t => {| s_ts := t; s_temp := None; s_hum := Some 50%Q;
                        s_payload := ""; s_topic := "MSN/group6/easy_log" |} in
  let store : gmap string (list sample) :=
    {[ "easy_log"%string := [mk 99000000%Z; mk 95000000%Z] ]} in
  exists s, s ∈ [mk 95000000%Z; mk 99000000%Z] /\ s_ts s = 99000000%Z.
Proof.
  intros mk store.
  exact (proj1 (get_avg_last_ts_is_max 100000000 store "easy_log" 30
                  [mk 99000000%Z; mk 95000000%Z]
                  {| temperature_c := None; humidity_pct := Some (100 # 2)%Q;
                     avg_last_ts := 99000000 |} eq_refl eq_refl)).
Defined.

(** *** A wider window *)




(** *** A clock that does not go back *)

Section SortedOn.

Context {A : Type}.
Variable f : A -> Z.

Local Abbreviation le_on := (le_on f).

Lemma sorted_fmap_le_on (l : list A) :
  StronglySorted Z.le (f <$> l) <-> StronglySorted le_on l.
Proof.
  induction l as [|x l IH]; [split; constructor|].
  rewrite fmap_cons, !StronglySorted_cons, IH, Forall_fmap. reflexivity.
Qed.

Lemma sorted_sublist (l1 l2 : list A) :
  l1 `sublist_of` l2 -> StronglySorted le_on l2 -> StronglySorted le_on l1.
Proof.
  induction 1 as [|x l1 l2 Hsub IH|x l1 l2 Hsub IH]; intros Hs.
  - constructor.
  - apply StronglySorted_cons in Hs as [Hall Hs].
    apply StronglySorted_cons. split; [|now apply IH].
    rewrite Forall_forall in *. intros y Hy. apply Hall.
    eapply elem_of_sublist; eassumption.
  - apply StronglySorted_cons in Hs as [_ Hs]. now apply IH.
Qed.

End SortedOn.

Lemma arrivals_sorted (json_loads : string -> option json)
    (_parse_payload : string -> option Q * option Q)
    (msgs : list message) (d : string) :
  StronglySorted Z.le (m_now <$> msgs) ->
  StronglySorted Z.le
    (s_ts <$> lastn DEFAULT_MAX_SAMPLES (arrivals json_loads _parse_payload d msgs)).
Proof.
  intros Hs. apply sorted_fmap_le_on.
  apply (sorted_sublist s_ts _ (arrivals json_loads _parse_payload d msgs));
    [apply sublist_drop|].
  apply sorted_fmap_le_on. unfold arrivals.
  rewrite <- list_fmap_compose.
  assert (Hts : forall m, (s_ts ∘ sample_of _parse_payload) m = m_now m).
  { intros m. unfold sample_of. cbn.
    now destruct (_parse_payload (m_payload_text m)). }
  rewrite (list_fmap_ext _ m_now _ (fun _ m _ => Hts m)).
  apply sorted_fmap_le_on.
  eapply sorted_sublist; [apply sublist_filter|].
  now apply sorted_fmap_le_on.
Qed.

(** When the receipt times of the messages never go back, the aggregate of
    a device is taken over exactly the samples of its history that lie in
    the window: the scan from the newest sample misses none. *)
Theorem get_avg_exact_on_monotone_clock (json_loads : string -> option json)
    (_parse_payload : string -> option Q * option Q)
    (msgs : list message) (now : Z) (device_id : string) (window_seconds : Z) :
  StronglySorted Z.le (m_now <$> msgs) ->
  let history := lastn 1000 (arrivals json_loads _parse_payload device_id msgs) in
  get_avg now (ingest json_loads _parse_payload msgs ∅) device_id window_seconds
  = aggregate_of
      (rev (filter (fun s => (now - window_seconds * 1000000 <= s_ts s)%Z) history)).
Proof.
  intros Hs history.
  pose proof (ingest_history json_loads _parse_payload msgs device_id) as Hh.
  pose proof (arrivals_sorted json_loads _parse_payload msgs device_id Hs) as Hsorted.
  change (lastn DEFAULT_MAX_SAMPLES (arrivals json_loads _parse_payload device_id msgs))
    with history in Hh, Hsorted.
  destruct (ingest json_loads _parse_payload msgs ∅ !! device_id) as [dq|] eqn:Hd.
  - cbn [default from_option id] in Hh. subst dq.
    rewrite (get_avg_aggregate _ _ _ _ _ Hd).
    now rewrite (window_samples_sorted _ _ Hsorted).
  - cbn [default from_option id] in Hh. rewrite <- Hh.
    now rewrite (get_avg_unknown _ _ _ _ Hd).
Qed.

Lemma get_avg_exact_on_monotone_clock_witness :
  let msgs := [ {| m_now := 10000000; m_topic := "MSN/group6/easy_log"; m_payload_text := "h=40" |};
                {| m_now := 95000000; m_topic := "MSN/group6/easy_log"; m_payload_text := "h=60" |} ] in
  get_avg 100000000 (ingest (fun _ => None) (fun _ => (None, Some 50%Q)) msgs ∅) "easy_log" 30
  = Some {| temperature_c := None; humidity_pct := Some 50%Q; avg_last_ts := 95000000 |}.
Proof.
  intros msgs.
  refine (eq_trans (get_avg_exact_on_monotone_clock (fun _ => None)
            (fun _ => (None, Some 50%Q)) msgs 100000000 "easy_log" 30 _) _).
  - repeat constructor; cbn; lia.
  - reflexivity.
Defined.

(** ** The source read from the routing key *)

Section TopicFacts.

Local Open Scope string_scope.

Lemma has_slash_last_segment (s : string) :
  PyStr.has_slash (PyStr.last_segment s) = false.
Proof.
  induction s as [|c r IH]; [reflexivity|]. cbn [PyStr.last_segment].
  destruct (PyStr.has_slash r) eqn:Hr; [exact IH|].
  destruct (Ascii.eqb c "/") eqn:Hc; [exact Hr|].
  cbn. now rewrite Hc, Hr.
Qed.

Lemma append_cons (c : ascii) (a s : string) :
  String c a ++ s = String c (a ++ s).
Proof. reflexivity. Qed.

Lemma append_empty (s : string) : "" ++ s = s.
Proof. reflexivity. Qed.

Lemma has_slash_app (a d : string) : PyStr.has_slash (a ++ String "/" d) = true.
Proof.
  induction a as [|c a IH]; [reflexivity|].
  rewrite append_cons. cbn [PyStr.has_slash]. rewrite IH. apply orb_true_r.
Qed.

Lemma lstrip_app_slash (a d : string) :
  PyStr.lstrip (a ++ String "/" d) = PyStr.lstrip a ++ String "/" d.
Proof.
  induction a as [|c a IH]; [reflexivity|].
  rewrite append_cons. cbn [PyStr.lstrip].
  destruct (PyStr.is_space c); [exact IH | reflexivity].
Qed.

Lemma rstrip_app_slash (a d : string) :
  PyStr.rstrip (a ++ String "/" d) = a ++ String "/" (PyStr.rstrip d).
Proof.
  induction a as [|c a IH].
  - rewrite !append_empty. cbn [PyStr.rstrip].
    destruct (PyStr.rstrip d); reflexivity.
  - rewrite !append_cons. cbn [PyStr.rstrip]. rewrite IH.
    destruct a; reflexivity.
Qed.

Lemma last_segment_app_slash (a d : string) :
  PyStr.has_slash d = false -> PyStr.last_segment (a ++ String "/" d) = d.
Proof.
  intros Hd. induction a as [|c a IH].
  - rewrite append_empty. cbn. now rewrite Hd.
  - rewrite append_cons. cbn [PyStr.last_segment]. now rewrite has_slash_app.
Qed.

Lemma has_slash_rstrip (d : string) :
  PyStr.has_slash d = false -> PyStr.has_slash (PyStr.rstrip d) = false.
Proof.
  induction d as [|c d IH]; [reflexivity|]. cbn [PyStr.has_slash PyStr.rstrip].
  intros [Hc Hd]%orb_false_iff. specialize (IH Hd).
  destruct (PyStr.rstrip d) eqn:Hr.
  - destruct (PyStr.is_space c); cbn; [reflexivity | now rewrite Hc].
  - cbn [PyStr.has_slash] in *. now rewrite Hc, IH.
Qed.

(** When the payload names no source, the source read from the routing key
    never contains the delimiter. *)
Theorem inferred_id_has_no_slash (parsed : option json) (topic : string) :
  explicit_device_id parsed = None ->
  PyStr.has_slash (_infer_device_id parsed topic) = false.
Proof.
  intros Hnone. unfold _infer_device_id. rewrite Hnone.
  destruct (PyStr.has_slash topic) eqn:Hs.
  - apply has_slash_last_segment.
  - destruct topic; [reflexivity | exact Hs].
Qed.

Lemma inferred_id_has_no_slash_witness :
  PyStr.has_slash (_infer_device_id (Some (JArray [])) " MSN/group6/sensors/easylog-01 ")
  = false.
Proof.
  apply (inferred_id_has_no_slash (Some (JArray [])) " MSN/group6/sensors/easylog-01 ").
  reflexivity.
Defined.

(** For a routing key [base/dev] whose last segment [dev] has no
    delimiter, and a payload that names no source, the source is [dev]
    without its trailing blanks, whatever [base] is. *)
Theorem inferred_id_of_topic (parsed : option json) (base dev : string) :
  explicit_device_id parsed = None ->
  PyStr.has_slash dev = false ->
  _infer_device_id parsed (base ++ String "/" dev) = PyStr.rstrip dev.
Proof.
  intros Hnone Hdev. unfold _infer_device_id. rewrite Hnone, has_slash_app.
  unfold PyStr.strip. rewrite lstrip_app_slash, rstrip_app_slash.
  apply last_segment_app_slash. now apply has_slash_rstrip.
Qed.

Lemma inferred_id_of_topic_witness :
  _infer_device_id None "MSN/group6/sensors/sense_hat" = "sense_hat".
Proof.
  exact (inferred_id_of_topic None "MSN/group6/sensors" "sense_hat" eq_refl eq_refl).
Defined.

End TopicFacts.

(** * Properties of the payload parser *)

Section ParseFacts.

Variable json_loads : string -> option json.
Variable float_of_str : string -> option Q.

Local Abbreviation first_float := (Payload.first_float float_of_str).
Local Abbreviation json_fields := (Payload.json_fields float_of_str).
Local Abbreviation parse := (Payload._parse_payload json_loads float_of_str).

Lemma first_float_found keys obj x :
  first_float keys obj None = Some x ->
  forall cur, first_float keys obj cur = Some x.
Proof.
  induction keys as [|k keys IH]; cbn; [discriminate|].
  intros Hx cur. destruct (dict_get k obj) as [v|]; [|now apply IH].
  destruct (Payload.float_of_json float_of_str v); exact Hx.
Qed.

Lemma first_float_absent keys obj cur :
  Forall (fun k => dict_get k obj = None) keys ->
  first_float keys obj cur = cur.
Proof.
  induction 1 as [|k keys Hk _ IH]; cbn; [reflexivity|].
  now rewrite Hk.
Qed.

Lemma parse_json_found text temp hum :
  json_fields (json_loads text) = (Some temp, Some hum) ->
  parse text = (Some temp, Some hum).
Proof. intros H. unfold Payload._parse_payload. now rewrite H. Qed.

Lemma json_fields_nested obj inner :
  dict_get "payload" obj = Some (JObject inner) ->
  first_float Payload.TEMP_KEYS obj None = None
  \/ first_float Payload.HUM_KEYS obj None = None ->
  json_fields (Some (JObject obj))
  = (first_float Payload.TEMP_KEYS inner (first_float Payload.TEMP_KEYS obj None),
     first_float Payload.HUM_KEYS inner (first_float Payload.HUM_KEYS obj None)).
Proof.
  intros Hp Hmiss. unfold Payload.json_fields. rewrite Hp.
  destruct (first_float Payload.TEMP_KEYS obj None),
           (first_float Payload.HUM_KEYS obj None); try reflexivity.
  now destruct Hmiss.
Qed.

End ParseFacts.

(** When a field is missing at the top level of a JSON object and the
    object has a dict under "payload", the values of the nested dict take
    the place of the top-level ones: a temperature found in the nested
    dict is the result even when the top level had one, and so is a
    humidity; a top-level temperature is kept when the nested dict has
    none of the temperature keys, and a top-level humidity when it has
    none of the humidity keys. *)
Theorem nested_payload_overrides (json_loads : string -> option json)
    (float_of_str : string -> option Q) (text : string)
    (obj inner : list (string * json)) :
  json_loads text = Some (JObject obj) ->
  dict_get "payload" obj = Some (JObject inner) ->
  Payload.first_float float_of_str Payload.TEMP_KEYS obj None = None
  \/ Payload.first_float float_of_str Payload.HUM_KEYS obj None = None ->
  (forall t, Payload.first_float float_of_str Payload.TEMP_KEYS inner None = Some t ->
     fst (Payload._parse_payload json_loads float_of_str text) = Some t) /\
  (forall h, Payload.first_float float_of_str Payload.HUM_KEYS inner None = Some h ->
     snd (Payload._parse_payload json_loads float_of_str text) = Some h) /\
  (forall t0, Payload.first_float float_of_str Payload.TEMP_KEYS obj None = Some t0 ->
     Forall (fun k => dict_get k inner = None) Payload.TEMP_KEYS ->
     fst (Payload._parse_payload json_loads float_of_str text) = Some t0) /\
  (forall h0, Payload.first_float float_of_str Payload.HUM_KEYS obj None = Some h0 ->
     Forall (fun k => dict_get k inner = None) Payload.HUM_KEYS ->
     snd (Payload._parse_payload json_loads float_of_str text) = Some h0).
Proof.
  intros Hj Hp Hmiss. unfold Payload._parse_payload.
  rewrite Hj, (json_fields_nested float_of_str obj inner Hp Hmiss).
  split; [|split; [|split]].
  - intros t Ht. now rewrite (first_float_found float_of_str _ _ _ Ht).
  - intros h Hh. now rewrite (first_float_found float_of_str _ _ _ Hh).
  - intros t0 Ht0 Habs. now rewrite first_float_absent, Ht0.
  - intros h0 Hh0 Habs. now rewrite (first_float_absent _ _ _ _ Habs), Hh0.
Qed.

Lemma nested_payload_overrides_witness :
  let inner := [("temperature"%string, JNumber 30%Q); ("humidity"%string, JNumber 50%Q)] in
  let obj := [("temperature"%string, JNumber 20%Q); ("payload"%string, JObject inner)] in
  fst (Payload._parse_payload (fun _ => Some (JObject obj)) (fun _ => None) "{..}")
  = Some 30%Q.
Proof.
  intros inner obj.
  apply (proj1 (nested_payload_overrides (fun _ => Some (JObject obj)) (fun _ => None)
                  "{..}" obj inner eq_refl eq_refl (or_intror eq_refl))).
  reflexivity.
Defined.

(** A JSON message that names its source and carries both readings at the
    top level is stored whole: after it is ingested, [get_latest] of the
    named source returns its payload, receipt time, temperature, humidity
    and topic, whatever the routing key says. *)
Theorem json_message_stored (json_loads : string -> option json)
    (float_of_str : string -> option Q) (msg : message)
    (store : gmap string (list sample))
    (obj : list (string * json)) (source : string) (temp hum : Q) :
  json_loads (m_payload_text msg) = Some (JObject obj) ->
  first_str_field DEVICE_ID_KEYS obj = Some source ->
  Payload.first_float float_of_str Payload.TEMP_KEYS obj None = Some temp ->
  Payload.first_float float_of_str Payload.HUM_KEYS obj None = Some hum ->
  get_latest
    (_on_message json_loads (Payload._parse_payload json_loads float_of_str) msg store)
    source
  = Some {| l_payload := m_payload_text msg; l_ts := m_now msg;
            l_temperature_c := Some temp; l_humidity_pct := Some hum;
            l_topic := m_topic msg |}.
Proof.
  intros Hj Hid Ht Hh.
  assert (Hdev : device_of json_loads msg = source).
  { unfold device_of, _infer_device_id, explicit_device_id. now rewrite Hj, Hid. }
  assert (Hparse : Payload._parse_payload json_loads float_of_str (m_payload_text msg)
                   = (Some temp, Some hum)).
  { apply parse_json_found. rewrite Hj. unfold Payload.json_fields.
    now rewrite Ht, Hh. }
  rewrite get_latest_default, <- Hdev, on_message_lookup_same.
  cbn [default from_option id].
  rewrite deque_append_last by (unfold DEFAULT_MAX_SAMPLES; lia).
  unfold sample_of, latest_of. now rewrite Hparse.
Qed.

Lemma json_message_stored_witness :
  let obj := [("device_id"%string, JString "sense_hat");
              ("temperature"%string, JNumber 24.31%Q);
              ("humidity"%string, JNumber 48.8%Q);
              ("pressure"%string, JNumber 1013.2%Q);
              ("ts"%string, JNumber 1700000000000%Q)] in
  let msg := {| m_now := 1700000000123456;
                m_topic := "MSN/group6/sensors/sense_hat";
                m_payload_text := "{json}" |} in
  get_latest
    (_on_message (fun _ => Some (JObject obj))
       (Payload._parse_payload (fun _ => Some (JObject obj)) (fun _ => None)) msg ∅)
    "sense_hat"
  = Some {| l_payload := "{json}"; l_ts := 1700000000123456;
            l_temperature_c := Some 24.31%Q; l_humidity_pct := Some 48.8%Q;
            l_topic := "MSN/group6/sensors/sense_hat" |}.
Proof.
  intros obj msg.
  exact (json_message_stored (fun _ => Some (JObject obj)) (fun _ => None) msg ∅
           obj "sense_hat" 24.31%Q 48.8%Q eq_refl eq_refl eq_refl eq_refl).
Defined.

(** ** The text patterns *)

Section SearchFacts.

Local Open Scope string_scope.

Import Payload.

Lemma append_assoc (a b c : string) : (a ++ b) ++ c = a ++ (b ++ c).
Proof.
  induction a as [|x a IH]; [reflexivity|].
  rewrite !append_cons. now rewrite IH.
Qed.

Lemma all_chars_app (p : ascii -> bool) (a b : string) :
  PyStr.all_chars p (a ++ b) = PyStr.all_chars p a && PyStr.all_chars p b.
Proof.
  induction a as [|x a IH]; [reflexivity|].
  rewrite append_cons. cbn [PyStr.all_chars]. now rewrite IH, andb_assoc.
Qed.

Lemma digit_not_space (c : ascii) :
  is_digit c = true -> PyStr.is_space c = false.
Proof.
  unfold is_digit, PyStr.is_space. generalize (nat_of_ascii c). intros n Hd.
  apply andb_true_iff in Hd as [H1%Nat.leb_le H2%Nat.leb_le].
  apply orb_false_iff. split; apply andb_false_iff.
  - right. apply Nat.leb_gt. lia.
  - right. apply Nat.leb_gt. lia.
Qed.

Lemma sep_eq (c : ascii) : is_sep c = true -> c = ":"%char \/ c = "="%char.
Proof.
  unfold is_sep. intros [H%Ascii.eqb_eq | H%Ascii.eqb_eq]%orb_true_iff; auto.
Qed.

(** *** A text without digits *)

Lemma skip_spaces_no_digit (s : string) :
  PyStr.all_chars not_digit s = true ->
  PyStr.all_chars not_digit (skip_spaces s) = true.
Proof.
  induction s as [|c s IH]; [reflexivity|]. cbn [skip_spaces].
  intros H. destruct (PyStr.is_space c); [|exact H].
  cbn [PyStr.all_chars] in H. apply andb_true_iff in H as [_ H]. now apply IH.
Qed.

Lemma span_digits_no_digit (s : string) :
  PyStr.all_chars not_digit s = true -> fst (span_digits s) = "".
Proof.
  destruct s as [|c s]; [reflexivity|]. cbn [PyStr.all_chars span_digits].
  unfold not_digit. intros [Hc _]%andb_true_iff.
  apply negb_true_iff in Hc. now rewrite Hc.
Qed.

Lemma match_value_no_digit (s : string) :
  PyStr.all_chars not_digit s = true -> match_value s = None.
Proof.
  destruct s as [|c s]; [reflexivity|]. cbn [PyStr.all_chars match_value].
  intros [_ Hs]%andb_true_iff. destruct (is_sep c); [|reflexivity].
  pose proof (span_digits_no_digit _ (skip_spaces_no_digit s Hs)) as Hspan.
  destruct (span_digits (skip_spaces s)) as [ip rest]. cbn in Hspan. now subst ip.
Qed.

Lemma skip_literal_no_digit (lit s r : string) :
  skip_literal lit s = Some r ->
  PyStr.all_chars not_digit s = true -> PyStr.all_chars not_digit r = true.
Proof.
  revert s. induction lit as [|a lit IH]; intros s; cbn [skip_literal].
  - now intros [= <-].
  - destruct s as [|c s]; [discriminate|].
    destruct (Ascii.eqb (PyStr.lower_char c) a); [|discriminate].
    intros Hr [_ Hs]%andb_true_iff. now apply (IH s).
Qed.

Lemma match_here_no_digit first middle tail (s : string) :
  PyStr.all_chars not_digit s = true -> match_here first middle tail s = None.
Proof.
  destruct s as [|c s]; [reflexivity|]. cbn [PyStr.all_chars match_here].
  intros [_ Hs]%andb_true_iff.
  destruct (Ascii.eqb (PyStr.lower_char c) first); [|reflexivity].
  rewrite (match_value_no_digit s Hs).
  destruct (skip_literal middle s) as [s1|] eqn:H1; [|reflexivity].
  pose proof (skip_literal_no_digit _ _ _ H1 Hs) as Hs1.
  rewrite (match_value_no_digit s1 Hs1).
  destruct (skip_literal tail s1) as [s2|] eqn:H2; [|reflexivity].
  now rewrite (match_value_no_digit s2 (skip_literal_no_digit _ _ _ H2 Hs1)).
Qed.

Lemma search_no_digit first middle tail (s : string) :
  PyStr.all_chars not_digit s = true -> search first middle tail s = None.
Proof.
  induction s as [|c s IH]; intros Hs.
  - reflexivity.
  - cbn [search]. rewrite (match_here_no_digit _ _ _ _ Hs).
    cbn [PyStr.all_chars] in Hs. apply andb_true_iff in Hs as [_ Hs]. now apply IH.
Qed.

End SearchFacts.

(** A payload that is not JSON and holds no digit gives no reading: both
    fields are absent, not zero. *)
Theorem parse_payload_without_digits (json_loads : string -> option json)
    (float_of_str : string -> option Q) (text : string) :
  json_loads text = None ->
  PyStr.all_chars Payload.not_digit text = true ->
  Payload._parse_payload json_loads float_of_str text = (None, None).
Proof.
  intros Hj Hnd. unfold Payload._parse_payload. rewrite Hj. cbn.
  unfold Payload.search_temp, Payload.search_hum.
  now rewrite !search_no_digit.
Qed.

Lemma parse_payload_without_digits_witness :
  Payload._parse_payload (fun _ => None) (fun _ => None) "temp: n/a hum: --"
  = (None, None).
Proof.
  apply (parse_payload_without_digits (fun _ => None) (fun _ => None));
    reflexivity.
Defined.

(** *** A labelled number *)

Section LabelFacts.

Local Open Scope string_scope.

Import Payload.

Lemma all_chars_impl (p q : ascii -> bool) (s : string) :
  (forall c, p c = true -> q c = true) ->
  PyStr.all_chars p s = true -> PyStr.all_chars q s = true.
Proof.
  intros Hpq. induction s as [|c s IH]; [reflexivity|]. cbn [PyStr.all_chars].
  intros [Hc Hs]%andb_true_iff. now rewrite (Hpq c Hc), IH.
Qed.

Lemma all_chars_lower (p : ascii -> bool) (s : string) :
  PyStr.all_chars p (PyStr.lower s)
  = PyStr.all_chars (fun c => p (PyStr.lower_char c)) s.
Proof.
  induction s as [|c s IH]; [reflexivity|].
  cbn [PyStr.lower PyStr.all_chars]. now rewrite IH.
Qed.

Lemma span_digits_app (ds rest : string) :
  PyStr.all_chars is_digit ds = true ->
  match rest with "" => true | String c _ => not_digit c end = true ->
  span_digits (ds ++ rest) = (ds, rest).
Proof.
  intros Hds Hrest. induction ds as [|d ds IH].
  - rewrite append_empty. destruct rest as [|c rest]; [reflexivity|].
    cbn [span_digits]. unfold not_digit in Hrest.
    apply negb_true_iff in Hrest. now rewrite Hrest.
  - rewrite append_cons. cbn [span_digits PyStr.all_chars] in *.
    apply andb_true_iff in Hds as [Hd Hds]. now rewrite Hd, (IH Hds).
Qed.

Lemma skip_spaces_app (blanks s : string) :
  PyStr.all_chars PyStr.is_space blanks = true ->
  skip_spaces (blanks ++ s) = skip_spaces s.
Proof.
  induction blanks as [|b blanks IH]; [reflexivity|].
  rewrite append_cons. cbn [skip_spaces PyStr.all_chars].
  intros [Hb Hbs]%andb_true_iff. now rewrite Hb, IH.
Qed.

Lemma skip_spaces_digits (ds s : string) :
  ds <> "" -> PyStr.all_chars is_digit ds = true ->
  skip_spaces (ds ++ s) = ds ++ s.
Proof.
  destruct ds as [|d ds]; [congruence|]. intros _.
  rewrite append_cons. cbn [skip_spaces PyStr.all_chars].
  intros [Hd _]%andb_true_iff. now rewrite (digit_not_space d Hd).
Qed.

Lemma ends_number_head (rest : string) :
  ends_number rest = true ->
  match rest with "" => true | String c _ => not_digit c end = true.
Proof.
  destruct rest as [|c rest]; [reflexivity|]. cbn.
  now intros [H _]%andb_true_iff.
Qed.

(** The separator, blanks and a decimal number read as the number. *)
Lemma match_value_number (sep : ascii) (blanks ip fp rest : string) :
  is_sep sep = true ->
  PyStr.all_chars PyStr.is_space blanks = true ->
  ip <> "" -> PyStr.all_chars is_digit ip = true ->
  PyStr.all_chars is_digit fp = true ->
  ends_number rest = true ->
  match_value (String sep (blanks ++ (number_text ip fp ++ rest)))
  = Some (decimal_value ip fp).
Proof.
  intros Hsep Hblanks Hne Hip Hfp Hrest. cbn [match_value]. rewrite Hsep.
  rewrite skip_spaces_app by exact Hblanks.
  destruct fp as [|f fp]; cbn [number_text].
  - rewrite skip_spaces_digits by assumption.
    rewrite span_digits_app by (try assumption; now apply ends_number_head).
    destruct ip as [|i ip]; [congruence|].
    destruct rest as [|c rest]; [reflexivity|].
    cbn in Hrest. apply andb_true_iff in Hrest as [_ Hdot].
    apply negb_true_iff in Hdot. now rewrite Hdot.
  - rewrite append_assoc, append_cons.
    rewrite skip_spaces_digits by assumption.
    rewrite span_digits_app by (try assumption; reflexivity).
    destruct ip as [|i ip]; [congruence|].
    rewrite Ascii.eqb_refl.
    now rewrite span_digits_app by (try assumption; now apply ends_number_head).
Qed.

Lemma skip_literal_lower (label s : string) :
  skip_literal (PyStr.lower label) (label ++ s) = Some s.
Proof.
  induction label as [|c label IH]; [reflexivity|].
  rewrite append_cons. cbn [PyStr.lower skip_literal].
  now rewrite Ascii.eqb_refl.
Qed.

Lemma lower_app_inv (l a b : string) :
  PyStr.lower l = a ++ b ->
  exists l1 l2, l = l1 ++ l2 /\ PyStr.lower l1 = a /\ PyStr.lower l2 = b.
Proof.
  revert l. induction a as [|x a IH]; intros l Hl.
  - exists "", l. now rewrite !append_empty in *.
  - destruct l as [|c l]; [discriminate|].
    rewrite append_cons in Hl. cbn [PyStr.lower] in Hl.
    injection Hl as Hc Hl. destruct (IH l Hl) as (l1 & l2 & -> & H1 & H2).
    exists (String c l1), l2. rewrite append_cons. cbn [PyStr.lower].
    now rewrite Hc, H1.
Qed.

(** The pattern matches at a label in any of its three lengths, in any
    case, when the text after the label reads as a separator and a
    number. *)
Lemma match_here_label (first : ascii) (middle tail label s : string) (v : Q) :
  PyStr.lower label = String first ""
  \/ PyStr.lower label = String first middle
  \/ PyStr.lower label = String first (middle ++ tail) ->
  skip_literal middle s = None -> skip_literal tail s = None ->
  match_value s = Some v ->
  match_here first middle tail (label ++ s) = Some v.
Proof.
  intros Hlabel Hmid Htail Hv.
  destruct label as [|c label]; [now destruct Hlabel as [H|[H|H]]|].
  rewrite append_cons. cbn [match_here PyStr.lower] in *.
  assert (Hc : PyStr.lower_char c = first)
    by (destruct Hlabel as [H|[H|H]]; now injection H).
  rewrite Hc, Ascii.eqb_refl.
  destruct Hlabel as [H|[H|H]]; injection H as _ Hl.
  - destruct label; [|discriminate]. rewrite append_empty. now rewrite Hmid.
  - rewrite <- Hl, skip_literal_lower. now rewrite Htail, Hv.
  - destruct (lower_app_inv _ _ _ Hl) as (l1 & l2 & -> & <- & <-).
    rewrite append_assoc, !skip_literal_lower. now rewrite Hv.
Qed.

Lemma search_here first middle tail (s : string) (v : Q) :
  match_here first middle tail s = Some v -> search first middle tail s = Some v.
Proof. intros H. destruct s; cbn [search]; now rewrite H. Qed.

Lemma search_skip first middle tail (p s : string) :
  PyStr.all_chars (fun c => negb (Ascii.eqb (PyStr.lower_char c) first)) p = true ->
  search first middle tail (p ++ s) = search first middle tail s.
Proof.
  induction p as [|c p IH]; [reflexivity|].
  rewrite append_cons. cbn [PyStr.all_chars search match_here].
  intros [Hc Hp]%andb_true_iff. apply negb_true_iff in Hc.
  rewrite Hc. now apply IH.
Qed.

Lemma sep_no_literal (sep : ascii) (lit rest : string) :
  is_sep sep = true ->
  match lit with
  | "" => false
  | String a _ => negb (Ascii.eqb a ":") && negb (Ascii.eqb a "=")
  end = true ->
  skip_literal lit (String sep rest) = None.
Proof.
  intros Hsep Hlit. destruct lit as [|a lit]; [discriminate|].
  cbn [skip_literal]. apply andb_true_iff in Hlit as [H1 H2].
  apply negb_true_iff in H1, H2.
  destruct (sep_eq sep Hsep) as [-> | ->].
  - change (PyStr.lower_char ":") with ":"%char. now rewrite Ascii.eqb_sym, H1.
  - change (PyStr.lower_char "=") with "="%char. now rewrite Ascii.eqb_sym, H2.
Qed.

End LabelFacts.

Section LabelledText.

Local Open Scope string_scope.

Import Payload.

Lemma all_chars_cons (p : ascii -> bool) (c : ascii) (s : string) :
  PyStr.all_chars p (String c s) = p c && PyStr.all_chars p s.
Proof. reflexivity. Qed.

Lemma is_number_parts (ip fp : string) :
  is_number ip fp = true ->
  ip <> "" /\ PyStr.all_chars is_digit ip = true /\ PyStr.all_chars is_digit fp = true.
Proof.
  unfold is_number. destruct ip as [|i ip]; [discriminate|].
  intros [H1 H2]%andb_true_iff. now repeat split.
Qed.

Lemma blank_or_digit_not_h (c : ascii) :
  PyStr.is_space c || is_digit c = true ->
  negb (Ascii.eqb (PyStr.lower_char c) "h") = true.
Proof.
  destruct c as [[] [] [] [] [] [] [] []]; vm_compute; congruence.
Qed.

Lemma number_text_not_h (ip fp : string) :
  is_number ip fp = true ->
  PyStr.all_chars (fun c => negb (Ascii.eqb (PyStr.lower_char c) "h"))
    (number_text ip fp) = true.
Proof.
  intros (_ & Hip & Hfp)%is_number_parts.
  assert (Hd : forall s, PyStr.all_chars is_digit s = true ->
                 PyStr.all_chars (fun c => negb (Ascii.eqb (PyStr.lower_char c) "h")) s
                 = true).
  { intros s. apply all_chars_impl. intros c Hc. apply blank_or_digit_not_h.
    rewrite Hc. apply orb_true_r. }
  unfold number_text. destruct fp as [|f fp]; [now apply Hd|].
  rewrite all_chars_app, (Hd ip Hip), all_chars_cons, (Hd _ Hfp).
  reflexivity.
Qed.

Lemma search_temp_label (label : string) (sep : ascii) (rest : string) (v : Q) :
  In (PyStr.lower label) ["t"; "temp"; "temperature"] ->
  is_sep sep = true ->
  match_value (String sep rest) = Some v ->
  search_temp (label ++ String sep rest) = Some v.
Proof.
  intros Hlabel Hsep Hv. apply search_here, match_here_label;
    [|now apply sep_no_literal|now apply sep_no_literal|exact Hv].
  cbn in Hlabel. destruct Hlabel as [<-|[<-|[<-|[]]]]; auto.
Qed.

Lemma search_hum_label (label : string) (sep : ascii) (rest : string) (v : Q) :
  In (PyStr.lower label) ["h"; "hum"; "humidity"] ->
  is_sep sep = true ->
  match_value (String sep rest) = Some v ->
  search_hum (label ++ String sep rest) = Some v.
Proof.
  intros Hlabel Hsep Hv. apply search_here, match_here_label;
    [|now apply sep_no_literal|now apply sep_no_literal|exact Hv].
  cbn in Hlabel. destruct Hlabel as [<-|[<-|[<-|[]]]]; auto.
Qed.

End LabelledText.

(** A text payload of the documented shape, a temperature label (t, temp
    or temperature, in any case), a separator (: or =), blanks and a
    decimal number, then a blank and the same for humidity (h, hum or
    humidity), parses to the two numbers written in it. *)
Theorem parse_payload_labelled_text (json_loads : string -> option json)
    (float_of_str : string -> option Q)
    (tl hl blanks1 blanks2 ip1 fp1 ip2 fp2 rest : string) (sep1 sep2 : ascii) :
  let text :=
    (tl ++ String sep1 (blanks1 ++ (Payload.number_text ip1 fp1 ++
       String " " (hl ++ String sep2 (blanks2 ++
         (Payload.number_text ip2 fp2 ++ rest))))))%string in
  json_loads text = None ->
  In (PyStr.lower tl) ["t"; "temp"; "temperature"]%string ->
  In (PyStr.lower hl) ["h"; "hum"; "humidity"]%string ->
  Payload.is_sep sep1 = true -> Payload.is_sep sep2 = true ->
  PyStr.all_chars PyStr.is_space blanks1 = true ->
  PyStr.all_chars PyStr.is_space blanks2 = true ->
  Payload.is_number ip1 fp1 = true -> Payload.is_number ip2 fp2 = true ->
  Payload.ends_number rest = true ->
  Payload._parse_payload json_loads float_of_str text
  = (Some (Payload.decimal_value ip1 fp1), Some (Payload.decimal_value ip2 fp2)).
Proof.
  intros text Hj Htl Hhl Hsep1 Hsep2 Hb1 Hb2 Hn1 Hn2 Hrest.
  pose proof (is_number_parts _ _ Hn1) as (Hne1 & Hip1 & Hfp1).
  pose proof (is_number_parts _ _ Hn2) as (Hne2 & Hip2 & Hfp2).
  set (hum_part := (hl ++ String sep2 (blanks2 ++ (Payload.number_text ip2 fp2 ++ rest)))%string)
    in *.
  unfold Payload._parse_payload. rewrite Hj. cbn [Payload.json_fields].
  assert (Htemp : Payload.search_temp text = Some (Payload.decimal_value ip1 fp1)).
  { unfold text. apply search_temp_label; [exact Htl | exact Hsep1 |].
    now apply match_value_number. }
  assert (Hhum : Payload.search_hum text = Some (Payload.decimal_value ip2 fp2)).
  { set (prefix := (tl ++ String sep1 (blanks1 ++ (Payload.number_text ip1 fp1 ++ " ")))%string).
    assert (Htext : text = (prefix ++ hum_part)%string).
    { unfold text, prefix. rewrite !append_assoc, !append_cons, !append_assoc.
      now rewrite append_cons, append_empty. }
    rewrite Htext. unfold Payload.search_hum. rewrite search_skip.
    - unfold hum_part. apply search_hum_label; [exact Hhl | exact Hsep2 |].
      now apply match_value_number.
    - unfold prefix. rewrite all_chars_app, all_chars_cons, !all_chars_app.
      rewrite (number_text_not_h _ _ Hn1).
      rewrite (all_chars_impl PyStr.is_space _ blanks1) by
        (try exact Hb1; intros c Hc; apply blank_or_digit_not_h; now rewrite Hc).
      assert (Hl : PyStr.all_chars
                     (fun c => negb (Ascii.eqb (PyStr.lower_char c) "h")) tl = true).
      { rewrite <- (all_chars_lower (fun a => negb (Ascii.eqb a "h")) tl).
        cbn in Htl. destruct Htl as [<-|[<-|[<-|[]]]]; reflexivity. }
      rewrite Hl.
      destruct (sep_eq sep1 Hsep1) as [-> | ->]; reflexivity. }
  now rewrite Htemp, Hhum.
Qed.

Lemma parse_payload_labelled_text_witness :
  Payload._parse_payload (fun _ => None) (fun _ => None) "temp:24.3 hum:48.8"
  = (Some 24.3%Q, Some 48.8%Q).
Proof.
  exact (parse_payload_labelled_text (fun _ => None) (fun _ => None)
           "temp" "hum" "" "" "24" "3" "48" "8" "" ":" ":"
           eq_refl (or_intror (or_introl eq_refl)) (or_intror (or_introl eq_refl))
           eq_refl eq_refl eq_refl eq_refl eq_refl eq_refl eq_refl).
Defined.

(** * Further properties of the control page *)

(** ** The window holds the latest records *)

Lemma sorted_split_window (window_records : nat) (all_entries : list entry) :
  sort_entries all_entries
  = excluded window_records all_entries ++ recent window_records all_entries.
Proof.
  destruct (recent_excluded_split window_records all_entries) as [Hd Hk].
  set (k := length (sort_entries all_entries)
            - length (recent window_records all_entries)) in *.
  clearbody k. rewrite Hd, Hk. symmetry. apply take_drop.
Qed.

Lemma recent_subset (window_records : nat) (all_entries : list entry) (e : entry) :
  e ∈ recent window_records all_entries -> e ∈ all_entries.
Proof.
  intros Hin. rewrite <- (sort_entries_Permutation all_entries).
  rewrite (sorted_split_window window_records). apply elem_of_app. now right.
Qed.

(** The window is made of the entries with the largest sort keys: the
    kept and the excluded entries together are the entries given, and no
    excluded entry has a key above that of a kept one. *)
Theorem recent_holds_largest_keys (window_records : nat) (all_entries : list entry) :
  let kept := recent window_records all_entries in
  let dropped := excluded window_records all_entries in
  Permutation (dropped ++ kept) all_entries /\
  (forall e1 e2, e1 ∈ dropped -> e2 ∈ kept -> (_sort_key e1 <= _sort_key e2)%Q) /\
  (0 < window_records ->
   length kept = Nat.min window_records (length all_entries)).
Proof.
  intros kept dropped. split; [|split].
  - unfold kept, dropped. rewrite <- sorted_split_window.
    apply sort_entries_Permutation.
  - intros e1 e2 H1 H2.
    pose proof (sort_entries_sorted all_entries) as Hs.
    rewrite (sorted_split_window window_records) in Hs.
    exact (StronglySorted_app_1_elem_of _ _ _ _ _ Hs H1 H2).
  - apply recent_length.
Qed.

Lemma recent_holds_largest_keys_witness :
  let mk := fun d t => {| e_device := d; e_ts_epoch := Some t; e_temp := None;
                          e_hum := Some 50%Q; e_raw := ""; e_topic := "" |} in
  let all_entries := [mk "a"%string 30%Q; mk "b"%string 10%Q; mk "a"%string 20%Q] in
  (_sort_key (mk "b"%string 10%Q) <= _sort_key (mk "a"%string 20%Q))%Q.
Proof.
  intros mk all_entries.
  apply (proj1 (proj2 (recent_holds_largest_keys 2 all_entries))).
  - apply list_elem_of_lookup. exists 0. reflexivity.
  - apply list_elem_of_lookup. exists 0. reflexivity.
Defined.

(** ** Entries copied from the store *)

Lemma copy_store_elem fromisoformat float_of_str
    (items : list (string * list sample)) (e : entry) :
  e ∈ copy_store fromisoformat float_of_str items ->
  exists dev dq s, (dev, dq) ∈ items /\ s ∈ dq /\
                   e = entry_of_sample fromisoformat float_of_str dev s.
Proof.
  unfold copy_store. rewrite list_elem_of_In, in_flat_map.
  intros ([dev dq] & Hitem & Hin). apply in_map_iff in Hin as (s & <- & Hs).
  exists dev, dq, s. now rewrite !list_elem_of_In.
Qed.

(** Every entry copied from the store has an epoch, the receipt time of
    its sample in seconds, so none of them takes the key -1; and the sort
    key orders the entries as the receipt times order the samples. *)
Theorem store_entries_have_epochs (fromisoformat : string -> option datetime)
    (float_of_str : string -> option Q)
    (items : list (string * list sample)) :
  (forall e, e ∈ copy_store fromisoformat float_of_str items ->
     exists dev dq s, (dev, dq) ∈ items /\ s ∈ dq /\
       e_device e = dev /\ e_hum e = s_hum s /\ e_temp e = s_temp s /\
       e_ts_epoch e = Some (inject_Z (s_ts s) / 1000000)%Q) /\
  (forall dev dev' a b,
     (_sort_key (entry_of_sample fromisoformat float_of_str dev a)
      <= _sort_key (entry_of_sample fromisoformat float_of_str dev' b))%Q
     <-> (s_ts a <= s_ts b)%Z).
Proof.
  split.
  - intros e (dev & dq & s & Hitem & Hs & ->)%copy_store_elem.
    exists dev, dq, s. repeat split; try assumption.
    cbn. unfold datetime_epoch. cbn. now rewrite Z.sub_0_r.
  - intros dev dev' a b. cbn. unfold datetime_epoch. cbn. rewrite !Z.sub_0_r.
    unfold Qdiv. rewrite Qmult_le_r by reflexivity. now rewrite <- Zle_Qle.
Qed.

Lemma store_entries_have_epochs_witness :
  let s := {| s_ts := 95000000; s_temp := None; s_hum := Some 60%Q;
              s_payload := "h=60"; s_topic := "MSN/group6/sense_hat" |} in
  exists dev dq s', (dev, dq) ∈ [("sense_hat"%string, [s])] /\ s' ∈ dq /\
    e_device (entry_of_sample (fun _ => None) (fun _ => None) "sense_hat" s) = dev /\
    e_hum (entry_of_sample (fun _ => None) (fun _ => None) "sense_hat" s) = s_hum s' /\
    e_temp (entry_of_sample (fun _ => None) (fun _ => None) "sense_hat" s) = s_temp s' /\
    e_ts_epoch (entry_of_sample (fun _ => None) (fun _ => None) "sense_hat" s)
    = Some (inject_Z (s_ts s') / 1000000)%Q.
Proof.
  intros s.
  apply (proj1 (store_entries_have_epochs (fun _ => None) (fun _ => None)
                  [("sense_hat"%string, [s])])).
  apply list_elem_of_lookup. exists 0. reflexivity.
Defined.

(** ** The readings per device *)

Lemma record_entry_lookup (ent : entry) (per_device : list (string * device_lists))
    (d : string) :
  (list_to_map (record_entry ent per_device) : gmap string device_lists) !! d
  = if decide (d = e_device ent)
    then Some (add_reading ent
                 (default empty_lists
                    ((list_to_map per_device : gmap string device_lists) !! d)))
    else (list_to_map per_device : gmap string device_lists) !! d.
Proof.
  induction per_device as [|[dev lists] rest IH]; cbn [record_entry].
  - cbn [list_to_map foldr]. destruct (decide (d = e_device ent)) as [-> | Hne].
    + now rewrite lookup_insert_eq, lookup_empty.
    + now rewrite lookup_insert_ne by (apply not_eq_sym; exact Hne).
  - destruct (String.eqb_spec dev (e_device ent)) as [Heq | Hneq].
    + rewrite !list_to_map_cons. destruct (decide (d = e_device ent)) as [-> | Hne].
      * rewrite <- Heq. now rewrite !lookup_insert_eq.
      * rewrite !lookup_insert_ne by (rewrite Heq; apply not_eq_sym; exact Hne).
        reflexivity.
    + rewrite !list_to_map_cons. destruct (decide (d = dev)) as [-> | Hd].
      * rewrite !lookup_insert_eq. now destruct (decide (dev = e_device ent)).
      * rewrite !lookup_insert_ne by (apply not_eq_sym; exact Hd). exact IH.
Qed.

Lemma record_entry_keys (ent : entry) (per_device : list (string * device_lists)) :
  map fst (record_entry ent per_device)
  = if decide (e_device ent ∈ map fst per_device) then map fst per_device
    else map fst per_device ++ [e_device ent].
Proof.
  induction per_device as [|[dev lists] rest IH]; cbn [record_entry map fst].
  - destruct (decide (e_device ent ∈ [])) as [Hin | _]; [|reflexivity].
    now apply not_elem_of_nil in Hin.
  - destruct (String.eqb_spec dev (e_device ent)) as [Heq | Hneq]; cbn [map fst].
    + destruct (decide (e_device ent ∈ dev :: map fst rest)) as [_ | Hnin];
        [reflexivity|]. exfalso. apply Hnin. rewrite Heq. left.
    + rewrite IH.
      destruct (decide (e_device ent ∈ map fst rest)) as [Hin | Hnin],
               (decide (e_device ent ∈ dev :: map fst rest)) as [Hin' | Hnin'];
        try reflexivity.
      * exfalso. apply Hnin'. now right.
      * exfalso. apply elem_of_cons in Hin' as [Heq | Hin'];
          [apply Hneq; symmetry; exact Heq | now apply Hnin].
Qed.

Lemma build_per_device_snoc (entries : list entry) (ent : entry) :
  build_per_device (entries ++ [ent]) = record_entry ent (build_per_device entries).
Proof. unfold build_per_device. now rewrite fold_left_app. Qed.

Lemma readings_of_default (d : string) (entries : list entry) :
  default empty_lists (readings_of d entries)
  = {| dl_hums := omap e_hum (filter (fun e => e_device e = d) entries);
       dl_temps := omap e_temp (filter (fun e => e_device e = d) entries) |}.
Proof.
  unfold readings_of. now destruct (filter (fun e => e_device e = d) entries).
Qed.

Lemma readings_of_snoc (d : string) (entries : list entry) (ent : entry) :
  readings_of d (entries ++ [ent])
  = if decide (d = e_device ent)
    then Some (add_reading ent (default empty_lists (readings_of d entries)))
    else readings_of d entries.
Proof.
  rewrite readings_of_default. unfold readings_of.
  rewrite filter_app, filter_cons, filter_nil.
  destruct (decide (d = e_device ent)) as [-> | Hne].
  - rewrite decide_True by reflexivity.
    set (own := filter (fun e => e_device e = e_device ent) entries).
    unfold add_reading. cbn [dl_hums dl_temps].
    destruct own as [|e own]; cbn [app].
    + cbn. destruct (e_hum ent), (e_temp ent); reflexivity.
    + change (e :: own ++ [ent]) with ((e :: own) ++ [ent]).
      rewrite !omap_app. f_equal. cbn.
      destruct (e_hum ent), (e_temp ent); cbn; rewrite ?app_nil_r; reflexivity.
  - rewrite decide_False by congruence. now rewrite app_nil_r.
Qed.

Lemma build_per_device_lookup (entries : list entry) (d : string) :
  (list_to_map (build_per_device entries) : gmap string device_lists) !! d
  = readings_of d entries.
Proof.
  induction entries as [|ent entries IH] using rev_ind; [reflexivity|].
  rewrite build_per_device_snoc, record_entry_lookup, readings_of_snoc.
  now rewrite IH.
Qed.

Lemma build_per_device_NoDup (entries : list entry) :
  NoDup (map fst (build_per_device entries)).
Proof.
  induction entries as [|ent entries IH] using rev_ind; [constructor|].
  rewrite build_per_device_snoc, record_entry_keys.
  destruct (decide (e_device ent ∈ map fst (build_per_device entries)));
    [exact IH|].
  apply NoDup_app. split; [exact IH|]. split.
  - intros x Hx Hx'. apply list_elem_of_singleton in Hx'. now subst.
  - apply NoDup_singleton.
Qed.

Lemma readings_of_Some (d : string) (entries : list entry) :
  is_Some (readings_of d entries) <-> exists e, e ∈ entries /\ e_device e = d.
Proof.
  unfold readings_of.
  destruct (filter (fun e => e_device e = d) entries) as [|e own] eqn:Hf.
  - split; [now intros [? ?]|]. intros (e & Hin & Hd). exfalso.
    assert (He : e ∈ filter (fun e => e_device e = d) entries)
      by (apply list_elem_of_filter; now split).
    rewrite Hf in He. now apply not_elem_of_nil in He.
  - split; [|now eexists]. intros _. exists e.
    assert (He : e ∈ filter (fun e => e_device e = d) entries)
      by (rewrite Hf; left).
    apply list_elem_of_filter in He as [Hd Hin]. now split.
Qed.

Lemma map_fmap {A B} (f : A -> B) (l : list A) : map f l = f <$> l.
Proof. induction l as [|x l IH]; [reflexivity|]. cbn. now rewrite IH. Qed.

Lemma build_per_device_keys (entries : list entry) (dev : string) :
  dev ∈ map fst (build_per_device entries)
  <-> exists e, e ∈ entries /\ e_device e = dev.
Proof.
  rewrite <- readings_of_Some, <- build_per_device_lookup, <- elem_of_dom.
  rewrite dom_list_to_map_L, elem_of_list_to_set. now rewrite map_fmap.
Qed.

(** [per_device] has one key per device of the window, and a device's
    lists are its humidity and its temperature readings in the order of
    the window, without the absent ones. *)
Theorem per_device_groups (entries : list entry) (dev : string) :
  let per_device := build_per_device entries in
  NoDup (map fst per_device) /\
  (dev ∈ map fst per_device <-> exists e, e ∈ entries /\ e_device e = dev) /\
  (list_to_map per_device : gmap string device_lists) !! dev
  = readings_of dev entries.
Proof.
  intros per_device. split; [apply build_per_device_NoDup|].
  split; [apply build_per_device_keys | apply build_per_device_lookup].
Qed.

Lemma per_device_groups_witness :
  let mk := fun d h => {| e_device := d; e_ts_epoch := Some 1%Q; e_temp := None;
                          e_hum := h; e_raw := ""; e_topic := "" |} in
  let entries := [mk "b"%string (Some 30%Q); mk "a"%string None;
                  mk "b"%string (Some 50%Q)] in
  (list_to_map (build_per_device entries) : gmap string device_lists) !! "b"%string
  = Some {| dl_hums := [30%Q; 50%Q]; dl_temps := [] |}.
Proof.
  intros mk entries.
  refine (eq_trans (proj2 (proj2 (per_device_groups entries "b"%string))) _).
  reflexivity.
Defined.

(** ** The two roles *)

Lemma last_named_elem (names : string -> bool) (keys : list string) (d : string) :
  last_named names keys = Some d -> names d = true /\ d ∈ keys.
Proof.
  unfold last_named. intros Hl.
  assert (Hin : d ∈ filter (fun d => names d = true) keys).
  { apply last_Some in Hl as [l' ->]. apply elem_of_app. right. left. }
  apply list_elem_of_filter in Hin. exact Hin.
Qed.

Lemma last_named_cons (names : string -> bool) (d : string) (keys : list string) :
  last_named names (d :: keys)
  = match last_named names keys with
    | Some x => Some x
    | None => if names d then Some d else None
    end.
Proof.
  unfold last_named. rewrite filter_cons.
  destruct (names d) eqn:Hd.
  - rewrite decide_True by reflexivity.
    destruct (filter (fun d => names d = true) keys) as [|x l] eqn:Hf; [reflexivity|].
    rewrite last_cons. now destruct (last (x :: l)).
  - rewrite decide_False by discriminate.
    now destruct (last (filter (fun d => names d = true) keys)).
Qed.

Lemma scan_names_fold (keys : list string) (acc1 acc2 : option string) :
  fold_left
    (fun '(sensor1_id, sensor2_id) d =>
       (if names_sensor1 d then Some d else sensor1_id,
        if names_sensor2 d then Some d else sensor2_id))
    keys (acc1, acc2)
  = (match last_named names_sensor1 keys with Some x => Some x | None => acc1 end,
     match last_named names_sensor2 keys with Some x => Some x | None => acc2 end).
Proof.
  revert acc1 acc2. induction keys as [|d keys IH]; intros acc1 acc2; [reflexivity|].
  cbn [fold_left]. rewrite IH, !last_named_cons.
  destruct (last_named names_sensor1 keys), (last_named names_sensor2 keys),
           (names_sensor1 d), (names_sensor2 d); reflexivity.
Qed.

Lemma scan_names_last (keys : list string) :
  scan_names keys = (last_named names_sensor1 keys, last_named names_sensor2 keys).
Proof.
  unfold scan_names. rewrite scan_names_fold.
  now destruct (last_named names_sensor1 keys), (last_named names_sensor2 keys).
Qed.

Lemma named_truthy (names : string -> bool) (keys : list string) (d : string) :
  names EmptyString = false ->
  last_named names keys = Some d -> truthy (Some d) = true.
Proof.
  intros Hempty [Hd _]%last_named_elem. destruct d; [congruence | reflexivity].
Qed.

(** Sensor 1 is the last device, in key order, whose name has "easy" in
    it and, when there is none, the first device; sensor 2 is the last
    device whose name has "sense" or "hat" in it and, when there is none,
    the second device, or the first one when the second is sensor 1, and
    nothing when there are fewer than two devices. A role that is set is a
    device of the window; the two roles can be one and the same device. *)
Theorem select_sensors_roles (dev_keys : list string) :
  let sensor1_id := fst (select_sensors dev_keys) in
  let sensor2_id := snd (select_sensors dev_keys) in
  (forall d, last_named names_sensor1 dev_keys = Some d -> sensor1_id = Some d) /\
  (last_named names_sensor1 dev_keys = None -> sensor1_id = head dev_keys) /\
  (forall d, last_named names_sensor2 dev_keys = Some d -> sensor2_id = Some d) /\
  (last_named names_sensor2 dev_keys = None ->
     sensor2_id = match dev_keys with
                  | k0 :: k1 :: _ =>
                      if decide (sensor1_id = Some k1) then Some k0 else Some k1
                  | _ => None
                  end) /\
  (forall d, sensor1_id = Some d -> d ∈ dev_keys) /\
  (forall d, sensor2_id = Some d -> d ∈ dev_keys).
Proof.
  cbv zeta. unfold select_sensors. rewrite scan_names_last.
  destruct (last_named names_sensor1 dev_keys) as [n1|] eqn:H1;
    [rewrite (named_truthy _ _ _ eq_refl H1)|];
    (destruct (last_named names_sensor2 dev_keys) as [n2|] eqn:H2;
      [rewrite (named_truthy _ _ _ eq_refl H2)|]);
    cbn [truthy fst snd];
    (split; [|split; [|split; [|split; [|split]]]]).
  - now intros d H.
  - discriminate.
  - now intros d H.
  - discriminate.
  - intros d [= <-]. now apply last_named_elem in H1.
  - intros d [= <-]. now apply last_named_elem in H2.
  - now intros d H.
  - discriminate.
  - discriminate.
  - intros _. destruct dev_keys as [|k0 [|k1 ks]]; try reflexivity.
    destruct (String.eqb_spec k1 n1) as [-> | Hne].
    + now rewrite decide_True.
    + rewrite decide_False; [reflexivity | congruence].
  - intros d [= <-]. now apply last_named_elem in H1.
  - destruct dev_keys as [|k0 [|k1 ks]]; try discriminate.
    destruct (String.eqb k1 n1); intros d [= <-]; [left | right; left].
  - discriminate.
  - intros _. now destruct dev_keys.
  - now intros d H.
  - discriminate.
  - destruct dev_keys as [|k0 ks]; [discriminate|]. intros d [= <-]. left.
  - intros d [= <-]. now apply last_named_elem in H2.
  - discriminate.
  - intros _. now destruct dev_keys.
  - discriminate.
  - intros _. destruct dev_keys as [|k0 [|k1 ks]]; try reflexivity. cbn [head].
    destruct (String.eqb_spec k1 k0) as [-> | Hne].
    + now rewrite decide_True.
    + rewrite decide_False; [reflexivity | congruence].
  - destruct dev_keys as [|k0 ks]; [discriminate|]. intros d [= <-]. left.
  - destruct dev_keys as [|k0 [|k1 ks]]; try discriminate.
    destruct (String.eqb k1 k0); intros d [= <-]; [left | right; left].
Qed.

Lemma select_sensors_roles_witness :
  fst (select_sensors ["sense_hat"; "office"]%string) = Some "sense_hat"%string
  /\ snd (select_sensors ["sense_hat"; "office"]%string) = Some "sense_hat"%string.
Proof.
  destruct (select_sensors_roles ["sense_hat"; "office"]%string)
    as (_ & Hfirst & Hnamed & _).
  split; [exact (Hfirst eq_refl) | exact (Hnamed "sense_hat"%string eq_refl)].
Defined.

(** ** The blend of a pass *)

Lemma single_key (keys : list string) (d : string) :
  NoDup keys -> d ∈ keys -> Forall (fun k => k = d) keys -> keys = [d].
Proof.
  intros Hnd Hin Hall. destruct keys as [|k keys]; [now apply not_elem_of_nil in Hin|].
  apply Forall_cons in Hall as [-> Hall]. apply NoDup_cons in Hnd as [Hnin _].
  destruct keys as [|k' keys]; [reflexivity|].
  apply Forall_cons in Hall as [-> _]. exfalso. apply Hnin. left.
Qed.

Lemma select_sensors_single (d : string) :
  d <> EmptyString ->
  select_sensors [d] = (Some d, if names_sensor2 d then Some d else None).
Proof.
  intros Hd. unfold select_sensors, scan_names. cbn [fold_left].
  destruct d as [|c d]; [congruence|].
  destruct (names_sensor1 (String c d)), (names_sensor2 (String c d));
    reflexivity.
Qed.

Section FloatBlendFacts.

Variables float_sub float_mul float_add : Q -> Q -> Q.
Variable statistics_mean : list Q -> Q.

(** The mean of a role is taken over the humidity readings of the entries
    of its device. *)
Lemma sensor_avg_float_window (entries : list entry) (sensor_id : option string) :
  sensor_avg_float statistics_mean (list_to_map (build_per_device entries)) sensor_id
  = mean_float statistics_mean (role_hums sensor_id entries).
Proof.
  unfold sensor_avg_float, role_hums.
  destruct sensor_id as [[|c id]|]; try reflexivity.
  rewrite build_per_device_lookup. unfold readings_of.
  now destruct (filter (fun e => e_device e = String c id) entries).
Qed.

(** The means of the two roles are all the blend reads of the window. *)
Lemma blend_float_roles (w2 : Q) (window_records : nat) (all_entries : list entry) :
  let window := recent window_records all_entries in
  let roles := select_sensors (map fst (build_per_device window)) in
  blend_float float_sub float_mul float_add statistics_mean w2 window_records all_entries
  = combine_float float_mul float_add (float_sub 1 w2) w2
      (mean_float statistics_mean (role_hums (fst roles) window))
      (mean_float statistics_mean (role_hums (snd roles) window)).
Proof.
  intros window roles. unfold blend_float. fold window. fold roles.
  destruct roles as [sensor1_id sensor2_id]. cbn [fst snd].
  unfold weighted_avg_float, weight_sensor1_float.
  now rewrite !sensor_avg_float_window.
Qed.

End FloatBlendFacts.

(** C5, as the claim words it, fails: of the three sources office, lab
    and kitchen, named without a hint at a role, only kitchen reports
    humidity, so exactly one source has a mean; the roles go to office and
    lab, and there is no blend. *)
Lemma C5_third_source_has_no_part :
  let mk := fun d t h => {| e_device := d; e_ts_epoch := Some t; e_temp := Some 20%Q;
                            e_hum := h; e_raw := ""; e_topic := "" |} in
  let all_entries := [mk "office"%string 1%Q None; mk "lab"%string 2%Q None;
                      mk "kitchen"%string 3%Q (Some 50%Q)] in
  map (fun kv => (fst kv, dl_hums (snd kv))) (build_per_device (recent 60 all_entries))
  = [("office"%string, []); ("lab"%string, []); ("kitchen"%string, [50%Q])] /\
  ~ (forall (float_sub float_mul float_add : Q -> Q -> Q) (statistics_mean : list Q -> Q),
       blend_float float_sub float_mul float_add statistics_mean 0.7%Q 60 all_entries
       = Some (statistics_mean [50%Q])).
Proof.
  intros mk all_entries. split; [reflexivity|].
  intros Hblend.
  specialize (Hblend Qminus Qmult Qplus (fun _ => 0%Q)).
  discriminate Hblend.
Qed.

(** C5, amended. The blend is taken over the two roles, sensor 1 and
    sensor 2, and over nothing else. With a humidity mean for one of the
    two roles only, the blend is that mean, whatever the weights; with a
    mean for neither role, there is no blend; with a mean for both, the
    blend is the float sum [w1 * m1 + w2 * m2] with [w1 = 1.0 - w2], which
    is not divided by the sum of the weights. A device that holds neither
    role does not change the blend, and the mean of a role is that of the
    humidity readings of the entries of its device in the window. *)
Theorem C5_blend_over_two_roles
    (float_sub float_mul float_add : Q -> Q -> Q) (statistics_mean : list Q -> Q)
    (w2 : Q) (per_device : gmap string device_lists)
    (sensor1_id sensor2_id : option string) :
  let avg := sensor_avg_float statistics_mean per_device in
  let blend := weighted_avg_float float_sub float_mul float_add statistics_mean
                 w2 per_device sensor1_id sensor2_id in
  match avg sensor1_id, avg sensor2_id with
  | Some m1, Some m2 =>
      blend = Some (float_add (float_mul (float_sub 1%Q w2) m1) (float_mul w2 m2))
  | Some m, None | None, Some m => blend = Some m
  | None, None => blend = None
  end /\
  (forall others : gmap string device_lists,
     (forall id, sensor1_id = Some id \/ sensor2_id = Some id ->
                 others !! id = per_device !! id) ->
     weighted_avg_float float_sub float_mul float_add statistics_mean
       w2 others sensor1_id sensor2_id = blend) /\
  (forall (window_records : nat) (all_entries : list entry),
     let window := recent window_records all_entries in
     let roles := select_sensors (map fst (build_per_device window)) in
     blend_float float_sub float_mul float_add statistics_mean
       w2 window_records all_entries
     = combine_float float_mul float_add (float_sub 1%Q w2) w2
         (mean_float statistics_mean (role_hums (fst roles) window))
         (mean_float statistics_mean (role_hums (snd roles) window))).
Proof.
  intros avg blend. split; [|split].
  - unfold blend, avg, weighted_avg_float, weight_sensor1_float.
    destruct (sensor_avg_float statistics_mean per_device sensor1_id),
             (sensor_avg_float statistics_mean per_device sensor2_id);
      reflexivity.
  - intros others Hsame. unfold blend, weighted_avg_float.
    assert (Havg : forall sid, sid = sensor1_id \/ sid = sensor2_id ->
              sensor_avg_float statistics_mean others sid
              = sensor_avg_float statistics_mean per_device sid).
    { intros [[|c id]|] Hsid; try reflexivity. unfold sensor_avg_float.
      rewrite (Hsame (String c id)); [reflexivity|].
      destruct Hsid as [<-|<-]; [now left | now right]. }
    rewrite (Havg sensor1_id), (Havg sensor2_id); [reflexivity| now right | now left].
  - intros window_records all_entries. apply blend_float_roles.
Qed.

Lemma C5_blend_over_two_roles_witness :
  let easy := {| dl_hums := [10%Q]; dl_temps := [] |} in
  let kitchen := {| dl_hums := [99%Q]; dl_temps := [] |} in
  weighted_avg_float Qminus Qmult Qplus (fun xs => default 0%Q (mean xs)) 0.7%Q
    (<[ "kitchen"%string := kitchen ]> {[ "easy_log"%string := easy ]})
    (Some "easy_log"%string) (Some "sense_hat"%string)
  = Some 10%Q.
Proof.
  intros easy kitchen.
  destruct (C5_blend_over_two_roles Qminus Qmult Qplus (fun xs => default 0%Q (mean xs))
              0.7%Q {[ "easy_log"%string := easy ]}
              (Some "easy_log"%string) (Some "sense_hat"%string)) as (_ & Hothers & _).
  rewrite (Hothers (<[ "kitchen"%string := kitchen ]> {[ "easy_log"%string := easy ]}));
    [reflexivity|].
  intros id [[= <-]|[= <-]]; reflexivity.
Defined.

(** When all the entries come from one device with a name that is not
    empty, there is no blend exactly when the window has no humidity
    reading. Otherwise, with [m] the mean of the humidity readings of the
    window, the blend is [m] itself when the name has neither "sense" nor
    "hat" in it, so that the device is sensor 1 only; when the name has one
    of them the device holds both roles and the blend is the float sum
    [(1.0 - w2) * m + w2 * m], which the rounding can move away from
    [m]. *)
Theorem blend_float_single_device
    (float_sub float_mul float_add : Q -> Q -> Q) (statistics_mean : list Q -> Q)
    (w2 : Q) (window_records : nat) (all_entries : list entry) (dev : string) :
  0 < window_records -> all_entries <> [] -> dev <> EmptyString ->
  Forall (fun e => e_device e = dev) all_entries ->
  blend_float float_sub float_mul float_add statistics_mean w2 window_records all_entries
  = let hums := omap e_hum (recent window_records all_entries) in
    match hums with
    | [] => None
    | _ :: _ =>
        let m := statistics_mean hums in
        if names_sensor2 dev
        then Some (float_add (float_mul (float_sub 1%Q w2) m) (float_mul w2 m))
        else Some m
    end.
Proof.
  intros Hpos Hne Hdev Hall. rewrite blend_float_roles.
  set (entries := recent window_records all_entries).
  assert (Hall' : Forall (fun e => e_device e = dev) entries).
  { rewrite Forall_forall in *. intros e He. apply Hall.
    now apply (recent_subset window_records). }
  assert (Hne' : entries <> []).
  { intros Hnil. pose proof (recent_length window_records all_entries Hpos) as Hlen.
    fold entries in Hlen. rewrite Hnil in Hlen. cbn in Hlen.
    destruct all_entries; [congruence | cbn in Hlen; lia]. }
  assert (Hkeys : map fst (build_per_device entries) = [dev]).
  { apply single_key.
    - apply build_per_device_NoDup.
    - apply build_per_device_keys. destruct entries as [|e entries']; [congruence|].
      exists e. split; [left|]. now apply Forall_cons in Hall' as [He _].
    - rewrite Forall_forall. intros k (e & He & <-)%build_per_device_keys.
      rewrite Forall_forall in Hall'. now apply Hall'. }
  rewrite Hkeys, (select_sensors_single dev Hdev). cbn [fst snd].
  assert (Hhums : role_hums (Some dev) entries = omap e_hum entries).
  { unfold role_hums. destruct dev as [|c dev']; [congruence|].
    now rewrite (filter_all _ entries Hall'). }
  rewrite Hhums.
  destruct (names_sensor2 dev); [rewrite Hhums|cbn [role_hums mean_float]];
    now destruct (omap e_hum entries).
Qed.

Lemma blend_float_single_device_witness :
  let mk := fun t h => {| e_device := "sense_hat"; e_ts_epoch := Some t;
                          e_temp := None; e_hum := Some h; e_raw := ""; e_topic := "" |} in
  let statistics_mean := fun xs => default 0%Q (mean xs) in
  blend_float Qminus Qmult Qplus statistics_mean 0.05%Q 60 [mk 1%Q 3%Q; mk 2%Q 3%Q]
  = Some (Qplus (Qmult (Qminus 1%Q 0.05%Q) (statistics_mean [3%Q; 3%Q]))
                (Qmult 0.05%Q (statistics_mean [3%Q; 3%Q]))).
Proof.
  intros mk statistics_mean.
  rewrite (blend_float_single_device Qminus Qmult Qplus statistics_mean 0.05%Q 60
             [mk 1%Q 3%Q; mk 2%Q 3%Q] "sense_hat");
    [reflexivity | lia | discriminate | discriminate |].
  repeat constructor.
Defined.

(** ** What a pass requests *)

Lemma decision_on_iff (requests_get : endpoint -> http_result) (b : Q) (ss : session) :
  command (threshold_decision requests_get b ss) = TURN_ON
  <-> (ws_th_on ss < b)%Q /\ allow_auto_on (ws_manual_override ss) = true.
Proof.
  unfold threshold_decision.
  destruct (Qgtb b (ws_th_on ss)) eqn:Hon.
  - apply Qgtb_true in Hon.
    destruct (allow_auto_on (ws_manual_override ss)); cbn [command].
    + split; [intros _; now split | reflexivity].
    + split; [discriminate | intros [_ H]; discriminate].
  - apply Qgtb_false in Hon.
    destruct (Qltb b (ws_th_off ss)); cbn [command];
      (split; [discriminate|]);
      intros [Hlt _]; exfalso; exact (Qlt_not_le _ _ Hlt Hon).
Qed.

Lemma decision_off_iff (requests_get : endpoint -> http_result) (b : Q) (ss : session) :
  command (threshold_decision requests_get b ss) = TURN_OFF
  <-> (b <= ws_th_on ss)%Q /\ (b < ws_th_off ss)%Q.
Proof.
  unfold threshold_decision.
  destruct (Qgtb b (ws_th_on ss)) eqn:Hon.
  - apply Qgtb_true in Hon.
    destruct (allow_auto_on (ws_manual_override ss)); cbn [command];
      (split; [discriminate|]);
      intros [Hle _]; exfalso; exact (Qlt_not_le _ _ Hon Hle).
  - apply Qgtb_false in Hon.
    destruct (Qltb b (ws_th_off ss)) eqn:Hoff; cbn [command].
    + apply Qltb_true in Hoff. split; [intros _; now split | reflexivity].
    + apply Qltb_false in Hoff. split; [discriminate|].
      intros [_ Hlt]. exfalso. exact (Qlt_not_le _ _ Hlt Hoff).
Qed.

(** A pass that found no entry decides nothing. Otherwise it requests ON
    exactly for a blend that is there and above [threshold_on] while no
    OFF latch is set, and OFF exactly for a blend that is there, not above
    [threshold_on] and below [threshold_off]: the ON test comes first,
    whatever the order of the two thresholds, and a pass under the OFF
    latch never requests ON. *)
Theorem pass_request_conditions (requests_get : endpoint -> http_result) (w2 : Q)
    (window_records : nat) (all_entries : list entry) (ss : session) :
  let outcome := usb_pass requests_get w2 window_records all_entries ss in
  (outcome = NoSamples <-> all_entries = []) /\
  (forall a, outcome = Decided a ->
     (command a = TURN_ON <->
      exists b, blend w2 window_records all_entries = Some b /\
                (ws_th_on ss < b)%Q /\
                allow_auto_on (ws_manual_override ss) = true) /\
     (command a = TURN_OFF <->
      exists b, blend w2 window_records all_entries = Some b /\
                (b <= ws_th_on ss)%Q /\ (b < ws_th_off ss)%Q) /\
     (forall set_at,
        ws_manual_override ss = Some {| state := off; ts := set_at |} ->
        command a <> TURN_ON)).
Proof.
  intros outcome. unfold outcome, usb_pass.
  destruct all_entries as [|e0 rest].
  - split; [split; reflexivity | discriminate].
  - set (all_entries := e0 :: rest). split; [split; discriminate|].
    intros a [= <-].
    destruct (blend w2 window_records all_entries) as [b|]; cbn [decision_cycle].
    + split; [|split].
      * rewrite decision_on_iff. split.
        -- intros [H1 H2]. now exists b.
        -- now intros (b' & [= <-] & H1 & H2).
      * rewrite decision_off_iff. split.
        -- intros [H1 H2]. now exists b.
        -- now intros (b' & [= <-] & H1 & H2).
      * intros set_at Hlatch. rewrite decision_on_iff, Hlatch. now intros [_ H].
    + split; [|split].
      * split; [discriminate | now intros (b' & Hb & _)].
      * split; [discriminate | now intros (b' & Hb & _)].
      * discriminate.
Qed.

Lemma pass_request_conditions_witness :
  let mk := fun t h => {| e_device := "sense_hat"; e_ts_epoch := Some t;
                          e_temp := None; e_hum := Some h; e_raw := ""; e_topic := "" |} in
  let latched := {| ws_manual_override := Some {| state := off; ts := "2024-05-01T10:00:00+00:00" |};
                    ws_th_on := 75; ws_th_off := 40 |} in
  command (decision_cycle (fun _ => HttpResponse 200)
             (blend 0.7 60 [mk 1%Q 90%Q]) latched) <> TURN_ON.
Proof.
  intros mk latched.
  destruct (pass_request_conditions (fun _ => HttpResponse 200) 0.7 60 [mk 1%Q 90%Q] latched)
    as [_ Hpass].
  exact (proj2 (proj2 (Hpass _ eq_refl)) "2024-05-01T10:00:00+00:00" eq_refl).
Defined.

(** ** Equal timestamps *)

Section Stable.

Context {A K : Type}.
Variable lt : K -> K -> bool.
Variable key : A -> K.
Variable P : A -> Prop.
Context `{!forall x, Decision (P x)}.

(** The elements of [P] tie with each other. *)
Hypothesis tied : forall x y, P x -> P y -> lt (key x) (key y) = false.

Lemma insert_by_filter_in (x : A) (l : list A) :
  P x -> filter P (insert_by lt key x l) = x :: filter P l.
Proof.
  intros Hx. induction l as [|y l IH]; cbn [insert_by].
  - now rewrite filter_cons_True.
  - destruct (lt (key y) (key x)) eqn:Hlt.
    + assert (Hy : ~ P y) by (intros Hy; rewrite (tied y x Hy Hx) in Hlt; discriminate).
      now rewrite !(filter_cons_False _ _ _ Hy).
    + now rewrite (filter_cons_True _ _ _ Hx).
Qed.

Lemma insert_by_filter_out (x : A) (l : list A) :
  ~ P x -> filter P (insert_by lt key x l) = filter P l.
Proof.
  intros Hx. induction l as [|y l IH]; cbn [insert_by].
  - now rewrite filter_cons_False.
  - destruct (lt (key y) (key x)).
    + rewrite !(filter_cons P y). now rewrite IH.
    + now rewrite (filter_cons_False _ _ _ Hx).
Qed.

Lemma list_sort_filter (l : list A) :
  filter P (list_sort lt key l) = filter P l.
Proof.
  induction l as [|x l IH]; [reflexivity|]. cbn [list_sort foldr].
  fold (list_sort lt key l). destruct (decide (P x)) as [Hx | Hx].
  - rewrite insert_by_filter_in by exact Hx.
    now rewrite (filter_cons_True _ _ _ Hx), IH.
  - rewrite insert_by_filter_out by exact Hx.
    now rewrite (filter_cons_False _ _ _ Hx), IH.
Qed.

End Stable.

Lemma Qltb_eq (x y z : Q) : Qeq_bool z x = true -> Qeq_bool z y = true -> Qltb x y = false.
Proof.
  intros Hx%Qeq_bool_iff Hy%Qeq_bool_iff. apply Qltb_false.
  rewrite <- Hx, <- Hy. apply Qle_refl.
Qed.

(** The two sorts are stable: the entries without an epoch stay in the
    order in which they were copied, and so do the entries of one and the
    same epoch. *)
Theorem sort_entries_stable (t : option Q) (all_entries : list entry) :
  filter (fun e => same_epoch t e = true) (sort_entries all_entries)
  = filter (fun e => same_epoch t e = true) all_entries.
Proof.
  unfold sort_entries. rewrite !list_sort_filter; [reflexivity| |].
  - intros x y. unfold same_epoch, none_last_key.
    destruct t as [z|], (e_ts_epoch x) as [ex|], (e_ts_epoch y) as [ey|];
      try discriminate; cbn [none_last_lt]; [|reflexivity].
    apply Qltb_eq.
  - intros x y. unfold same_epoch, _sort_key.
    destruct t as [z|], (e_ts_epoch x) as [ex|], (e_ts_epoch y) as [ey|];
      try discriminate; [apply Qltb_eq | reflexivity].
Qed.

(** ** The newest sample decides *)




Lemma get_latest_after_message_witness :
  let msg := {| m_now := 95000000; m_topic := "MSN/group6/easy_log";
                m_payload_text := "h=60" |} in
  let old := {| s_ts := 1; s_temp := None; s_hum := Some 40%Q;
                s_payload := "h=40"; s_topic := "MSN/group6/sense_hat" |} in
  let store : gmap string (list sample) := {[ "sense_hat"%string := [old] ]} in
  get_latest (_on_message (fun _ => None) (fun _ => (None, Some 60%Q)) msg store)
    "sense_hat"
  = Some (latest_of old).
Proof.
  intros msg old store.
  refine (eq_trans (proj2 (get_latest_after_message (fun _ => None)
            (fun _ => (None, Some 60%Q)) msg store) "sense_hat"%string _) _).
  - discriminate.
  - reflexivity.
Defined.

